(** * The log tables of bin/clickhouse-logs.sql

    A shallow embedding of the ClickHouse schema that stores PostHog logs:
    the primary table [logs22] with its materialized columns, projections and
    data-skipping indexes, the roll-up table [log_attributes] fed by the
    materialized view [log_to_log_attributes], and the Kafka table
    [kafka_logs_avro] with its view [kafka_logs_avro_mv].

    Tables are lists of rows in insertion order, a [Map(K, V)] column is the
    array of pairs ClickHouse stores, strings are byte strings, a
    [DateTime64(6)] is its number of microseconds since the epoch and a
    [DateTime] its number of seconds.  Every SELECT of the file is a function
    on rows; every engine clause (ReplacingMergeTree, AggregatingMergeTree,
    MATERIALIZED, CONSTRAINT ... ASSUME, PROJECTION) is the function its
    ClickHouse documentation describes.

    Left out: the function [extractIPv4Substrings] and the two columns
    materialized from [body], which only feed skip indexes; the Distributed
    table [logs], which forwards to [logs22]; replication; the sort of the
    rows inside a part; the deduplication of an INSERT whose block is,
    byte for byte, one of the last blocks inserted (two deliveries at
    different wall-clock times differ in [created_at]); and the collapse of
    rows that share a sorting key inside one inserted block
    (optimize_on_insert), which leaves a block of distinct sorting keys as it
    is. *)

From Stdlib Require Import ZArith QArith String Ascii List Bool Lia PeanoNat.
From Stdlib Require Import Floats.PrimFloat Sorted OrderedTypeEx.
From Stdlib Require Import DecimalString DecimalPos Permutation.
Import ListNotations.
Local Open Scope string_scope.
Local Open Scope list_scope.
Local Open Scope Z_scope.

Set Implicit Arguments.

(** ** ClickHouse column types and built-in functions *)

Module CH.

Definition Int32 := Z.
Definition UInt64 := Z.
Definition Float64 := float.
(** seconds since the epoch, an unsigned 32-bit count *)
Definition DateTime := Z.
(** ticks since the epoch; the schema uses scale 6 (microseconds) for event
    times and scale 0 (seconds) in [log_attributes] *)
Definition DateTime64 := Z.
Definition Map (K V : Type) := list (K * V).

Definition Int32_min : Z := - 2 ^ 31.
Definition Int32_max : Z := 2 ^ 31 - 1.

Definition wrap_UInt32 (x : Z) : Z := x mod 2 ^ 32.
Definition wrap_UInt64 (x : Z) : Z := x mod 2 ^ 64.

(** [length(s)]: the number of bytes of a string *)
Definition length (s : string) : Z := Z.of_nat (String.length s).

(** [m[k]] on a map: the value of the first pair with key [k], the default
    of the value type when there is none *)
Fixpoint mapElement (m : Map string string) (k : string) : string :=
  match m with
  | [] => ""
  | (k', v) :: rest => if String.eqb k' k then v else mapElement rest k
  end.

(** [indexOf(arr, x)]: the 1-based position of the first [x], 0 without *)
Fixpoint indexOf (arr : list string) (x : string) : Z :=
  match arr with
  | [] => 0
  | y :: rest =>
      if String.eqb y x then 1
      else match indexOf rest x with
           | 0 => 0
           | i => i + 1
           end
  end.

(** [arr[i]] with a computed index: 1-based from the front, negative from
    the back, the default value ('' for strings) outside the array and at
    index 0 *)
Definition arrayElement (arr : list string) (i : Z) : string :=
  if 0 <? i then nth (Z.to_nat (i - 1)) arr ""
  else if (i <? 0) && (- i <=? Z.of_nat (List.length arr))
       then nth (List.length arr - Z.to_nat (- i)) arr ""
       else "".

(** *** [toInt32OrZero]

    The text must be an optional sign followed by at least one decimal
    digit and nothing else, and the number must fit 32 signed bits; any
    other text gives 0. *)

Definition is_digit (c : ascii) : bool :=
  (48 <=? nat_of_ascii c)%nat && (nat_of_ascii c <=? 57)%nat.

Definition digit_value (c : ascii) : Z := Z.of_nat (nat_of_ascii c) - 48.

Fixpoint readDigits (acc : Z) (s : string) : option Z :=
  match s with
  | EmptyString => Some acc
  | String c rest =>
      if is_digit c then readDigits (acc * 10 + digit_value c) rest else None
  end.

Definition readUnsigned (s : string) : option Z :=
  match s with
  | EmptyString => None
  | _ => readDigits 0 s
  end.

Definition readIntText (s : string) : option Z :=
  match s with
  | EmptyString => None
  | String c rest =>
      if Ascii.eqb c "+" then readUnsigned rest
      else if Ascii.eqb c "-" then option_map Z.opp (readUnsigned rest)
      else readUnsigned s
  end.

Definition toInt32OrZero (s : string) : Int32 :=
  match readIntText s with
  | Some n => if (Int32_min <=? n) && (n <=? Int32_max) then n else 0
  | None => 0
  end.

(** *** Time

    [toStartOfInterval(t, INTERVAL n MINUTE)] on a [DateTime64(6)]: the
    ticks are first divided by the scale (C++ division, which truncates),
    the seconds are then floored to a multiple of [60 * n]. *)

Definition scale6 : Z := 1000000.

Definition toStartOfInterval_minute (n : Z) (t : DateTime64) : Z :=
  let s := Z.quot t scale6 in
  s / (60 * n) * (60 * n).

Definition toStartOfMinute (t : DateTime64) : Z := toStartOfInterval_minute 1 t.

(** storing a number of seconds in a [DateTime] column keeps its low 32
    bits (date_time_overflow_behavior = 'ignore', the default) *)
Definition toDateTime (s : Z) : DateTime := wrap_UInt32 s.

(** [toDate(t)]: the day number, a 16-bit count of days *)
Definition toDate (t : DateTime64) : Z := (Z.quot t scale6 / 86400) mod 2 ^ 16.

(** the event times a [DateTime] can hold: 1970-01-01 to 2106-02-07 *)
Definition DateTime_range (t : DateTime64) : Prop := 0 <= t < 2 ^ 32 * scale6.

(** *** [CAST(JSONExtract(s, 'Dynamic'), 'String')]

    [s] is parsed as JSON, the value gets the type inferred from it, and is
    printed back as a string.  A JSON string made of ASCII letters only
    infers [String] and prints as its content, without the quotes.  Every
    other text (numbers, objects, escapes, dates, invalid JSON) is printed
    by [other], which the embedding leaves open. *)

Definition double_quote : ascii := ascii_of_nat 34.

Definition is_letter (c : ascii) : bool :=
  let n := nat_of_ascii c in
  ((65 <=? n)%nat && (n <=? 90)%nat) || ((97 <=? n)%nat && (n <=? 122)%nat).

(** the letters in front of the closing quote, when nothing else is there *)
Fixpoint letters_then_quote (s : string) : option string :=
  match s with
  | EmptyString => None
  | String c rest =>
      if Ascii.eqb c double_quote then
        match rest with EmptyString => Some EmptyString | _ => None end
      else if is_letter c then
        option_map (String c) (letters_then_quote rest)
      else None
  end.

Definition plain_string_literal (s : string) : option string :=
  match s with
  | String c rest => if Ascii.eqb c double_quote then letters_then_quote rest else None
  | EmptyString => None
  end.

Definition CAST_JSONExtract_Dynamic_String (other : string -> string) (s : string) : string :=
  match plain_string_literal s with
  | Some body => body
  | None => other s
  end.

End CH.

(** ** Data-skipping indexes and table settings, as the schema lists them *)

Inductive index_type : Type :=
| bloom_filter (false_positive_rate : Q)
| set_index (max_rows : Z)
| ngrambf_v1 (n size_of_filter hashes seed : Z)
| tokenbf_v1 (size_of_filter hashes seed : Z).

Record skip_index : Type := INDEX {
  index_name : string;
  index_expression : string;
  index_kind : index_type;
  GRANULARITY : Z
}.

Definition false_positive_rate_of (t : index_type) : option Q :=
  match t with
  | bloom_filter p => Some p
  | _ => None
  end.

Fixpoint find_index (name : string) (l : list skip_index) : option skip_index :=
  match l with
  | [] => None
  | i :: rest => if String.eqb (index_name i) name then Some i else find_index name rest
  end.

(** the rate of the bloom filter called [name] *)
Definition bloom_rate (l : list skip_index) (name : string) : option Q :=
  match find_index name l with
  | Some i => false_positive_rate_of (index_kind i)
  | None => None
  end.

Inductive DeduplicateMergeProjectionMode : Type :=
| ignore | throw | drop | rebuild.

Inductive constraint_kind : Type := CHECK | ASSUME.

(** ** Table [logs22] *)

Module logs22.

(** the columns an INSERT supplies *)
Record columns : Type := {
  uuid : string;
  team_id : CH.Int32;
  trace_id : string;
  span_id : string;
  trace_flags : CH.Int32;
  timestamp : CH.DateTime64;
  observed_timestamp : CH.DateTime64;
  body : string;
  severity_text : string;
  severity_number : CH.Int32;
  service_name : string;
  resource_attributes : CH.Map string string;
  resource_id : string;
  instrumentation_scope : string;
  event_name : string;
  attributes : CH.Map string string;
  attributes_map_str : CH.Map string string;
  attributes_map_float : CH.Map string CH.Float64;
  attributes_map_datetime : CH.Map string CH.DateTime64
}.

(** a stored row: the inserted columns and the MATERIALIZED ones, which an
    INSERT cannot name.  [mat_body_ipv4_matches] and [mat_body_ngram], two
    more functions of [body] that only feed skip indexes, are left out. *)
Record row : Type := {
  written :> columns;
  time_bucket : CH.DateTime;
  created_at : CH.DateTime64
}.

(** [time_bucket MATERIALIZED toStartOfInterval(timestamp, interval 1 minute)],
    [created_at MATERIALIZED now()] *)
Definition materialize (now : CH.DateTime64) (w : columns) : row :=
  {| written := w;
     time_bucket := CH.toDateTime (CH.toStartOfInterval_minute 1 (timestamp w));
     created_at := now |}.

(** ALIAS columns, computed when read; [time_minute] is a [DateTime] *)
Definition time_minute (r : row) : CH.DateTime :=
  CH.toDateTime (CH.toStartOfMinute (timestamp r)).
Definition level (r : row) : string := severity_text r.

(** [CONSTRAINT assume_service_name_attr ASSUME
     attributes_map_str['service.name__str'] = service_name] *)
Definition assume_service_name_attr (w : columns) : bool :=
  String.eqb (CH.mapElement (attributes_map_str w) "service.name__str") (service_name w).

Definition constraints : list (string * constraint_kind * (columns -> bool)) :=
  [("assume_service_name_attr", ASSUME, assume_service_name_attr)].

Definition indexes : list skip_index :=
  [ INDEX "idx_mat_body_ipv4_matches" "mat_body_ipv4_matches" (bloom_filter (1 # 100)) 1;
    INDEX "idx_mat_body_ngram" "mat_body_ngram" (bloom_filter (1 # 100)) 1;
    INDEX "idx_severity_text_set" "severity_text" (set_index 10) 1;
    INDEX "idx_attributes_str_keys" "mapKeys(attributes_map_str)" (bloom_filter (1 # 100)) 1;
    INDEX "idx_attributes_str_values" "mapValues(attributes_map_str)" (bloom_filter (1 # 1000)) 1;
    INDEX "idx_body_ngram" "body" (ngrambf_v1 3 20000 4 0) 1;
    INDEX "idx_body_token" "body" (tokenbf_v1 10000 4 0) 1 ].

(** [PARTITION BY toDate(timestamp)] *)
Definition partition_key (r : row) : Z := CH.toDate (timestamp r).

(** [ORDER BY (team_id, time_bucket DESC, service_name, resource_attributes,
     severity_text, timestamp DESC, uuid, trace_id, span_id)] *)
Definition sorting_key_t : Type :=
  (CH.Int32 * CH.DateTime * string * CH.Map string string * string
   * CH.DateTime64 * string * string * string)%type.

Definition sorting_key (r : row) : sorting_key_t :=
  (team_id r, time_bucket r, service_name r, resource_attributes r,
   severity_text r, timestamp r, uuid r, trace_id r, span_id r).

Definition sorting_key_eq_dec (a b : sorting_key_t) : {a = b} + {a <> b}.
Proof. repeat decide equality. Defined.

(** [PROJECTION projection_trace_span]:
    [SELECT trace_id, timestamp, _part_offset ORDER BY trace_id, timestamp] *)
Definition trace_span_key_t : Type := (string * CH.DateTime64)%type.

Definition trace_span_key (r : row) : trace_span_key_t := (trace_id r, timestamp r).

(** [PROJECTION projection_aggregate_counts]: the GROUP BY columns *)
Definition aggregate_key_t : Type :=
  (CH.Int32 * CH.DateTime * Z * string * string * CH.Map string string * string)%type.

Definition aggregate_key (r : row) : aggregate_key_t :=
  (team_id r, time_bucket r, CH.toStartOfMinute (timestamp r), service_name r,
   severity_text r, resource_attributes r, resource_id r).

Definition aggregate_key_eq_dec (a b : aggregate_key_t) : {a = b} + {a <> b}.
Proof. repeat decide equality. Defined.

(** SETTINGS *)
Definition allow_remote_fs_zero_copy_replication : Z := 1.
Definition allow_experimental_reverse_key : Z := 1.
Definition deduplicate_merge_projection_mode : DeduplicateMergeProjectionMode := ignore.

End logs22.

Coercion logs22.written : logs22.row >-> logs22.columns.

(** ** Table [log_attributes] *)

Module log_attributes.

Record row : Type := {
  team_id : CH.Int32;
  time_bucket : CH.DateTime64;
  service_name : string;
  attribute_key : string;
  attribute_value : string;
  attribute_count : CH.UInt64
}.

Definition indexes : list skip_index :=
  [ INDEX "idx_attribute_key" "attribute_key" (bloom_filter (1 # 100)) 1;
    INDEX "idx_attribute_value" "attribute_value" (bloom_filter (1 # 1000)) 1;
    INDEX "idx_attribute_key_n3" "attribute_key" (ngrambf_v1 3 32768 3 0) 1;
    INDEX "idx_attribute_value_n3" "attribute_value" (ngrambf_v1 3 32768 3 0) 1 ].

(** [PARTITION BY toDate(time_bucket)], a column of scale 0 *)
Definition partition_key (r : row) : Z := (time_bucket r / 86400) mod 2 ^ 16.

(** [ORDER BY (team_id, service_name, time_bucket, attribute_key, attribute_value)] *)
Definition sorting_key_t : Type :=
  (CH.Int32 * string * CH.DateTime64 * string * string)%type.

Definition sorting_key (r : row) : sorting_key_t :=
  (team_id r, service_name r, time_bucket r, attribute_key r, attribute_value r).

Definition sorting_key_eq_dec (a b : sorting_key_t) : {a = b} + {a <> b}.
Proof. repeat decide equality. Defined.

Definition of_key (k : sorting_key_t) (n : CH.UInt64) : row :=
  let '(t, s, b, ak, av) := k in
  {| team_id := t; time_bucket := b; service_name := s;
     attribute_key := ak; attribute_value := av; attribute_count := n |}.

End log_attributes.

(** ** Merges

    A MergeTree table is the list of the rows of its parts, oldest insert
    first; the sort of a part by ORDER BY is not modelled.  The merges below
    merge everything (OPTIMIZE ... FINAL): rows of equal sorting key have the
    same [timestamp], hence the same partition, so a partition never keeps
    two of them apart. *)

Section Replacing.

Variables (R K : Type) (key : R -> K).
Variable K_eq_dec : forall a b : K, {a = b} + {a <> b}.

Definition same_key (a b : R) : bool :=
  if K_eq_dec (key a) (key b) then true else false.

(** ReplacingMergeTree without a version column: of the rows with one
    sorting key, the last inserted survives *)
Fixpoint replacing_merge (rows : list R) : list R :=
  match rows with
  | [] => []
  | r :: rest =>
      if existsb (same_key r) rest then replacing_merge rest
      else r :: replacing_merge rest
  end.

End Replacing.

Section Aggregating.

Variable K : Type.
Variable K_eq_dec : forall a b : K, {a = b} + {a <> b}.

(** [sum] over [UInt64] wraps *)
Fixpoint add_to_group (k : K) (c : CH.UInt64) (groups : list (K * CH.UInt64))
  : list (K * CH.UInt64) :=
  match groups with
  | [] => [(k, c)]
  | (k', c') :: rest =>
      if K_eq_dec k' k then (k', CH.wrap_UInt64 (c' + c)) :: rest
      else (k', c') :: add_to_group k c rest
  end.

(** GROUP BY with a sum, and the merge of an AggregatingMergeTree whose
    only aggregate is a sum: one row per key, in order of first arrival *)
Definition sum_by_key (rows : list (K * CH.UInt64)) : list (K * CH.UInt64) :=
  fold_left (fun groups kc => add_to_group (fst kc) (snd kc) groups) rows [].

(** what the rows of key [k] add up to, before wrapping *)
Fixpoint plain_total (k : K) (rows : list (K * CH.UInt64)) : Z :=
  match rows with
  | [] => 0
  | (k', c) :: rest => (if K_eq_dec k' k then c else 0) + plain_total k rest
  end.

(** the counter a reader sees for key [k] *)
Definition total (k : K) (rows : list (K * CH.UInt64)) : CH.UInt64 :=
  CH.wrap_UInt64 (plain_total k rows).

(** [count()] per key *)
Definition count_by_key (keys : list K) : list (K * CH.UInt64) :=
  sum_by_key (map (fun k => (k, 1)) keys).

End Aggregating.

(** ** Table [kafka_logs_avro] and the view [kafka_logs_avro_mv] *)

Module kafka_logs_avro.

Record row : Type := {
  uuid : string;
  trace_id : string;
  span_id : string;
  trace_flags : CH.Int32;
  timestamp : CH.DateTime64;
  observed_timestamp : CH.DateTime64;
  body : string;
  severity_text : string;
  severity_number : CH.Int32;
  service_name : string;
  resource_attributes : CH.Map string string;
  resource_id : string;
  instrumentation_scope : string;
  event_name : string;
  attributes : CH.Map string (option string);
  attributes_map_str : CH.Map string (option string);
  attributes_map_float : CH.Map string (option CH.Float64);
  attributes_map_datetime : CH.Map string (option CH.DateTime64)
}.

(** a consumed message: the decoded row and the virtual column [_headers],
    a [Nested(name String, value String)] *)
Record message : Type := {
  _headers : list (string * string);
  value : row
}.

Definition _headers_name (m : message) : list string := map fst (_headers m).
Definition _headers_value (m : message) : list string := map snd (_headers m).

(** SETTINGS *)
Definition kafka_skip_broken_messages : Z := 100.
Definition kafka_thread_per_consumer : Z := 1.
Definition kafka_num_consumers : Z := 1.
Definition kafka_poll_timeout_ms : Z := 15000.
Definition kafka_poll_max_batch_size : Z := 100.
Definition kafka_max_block_size : Z := 10.

End kafka_logs_avro.

Module kafka_logs_avro_mv.

(** [SELECT *, toInt32OrZero(...) as team_id FROM kafka_logs_avro] *)
Record row : Type := {
  star :> kafka_logs_avro.row;
  team_id : CH.Int32
}.

Definition select (m : kafka_logs_avro.message) : row :=
  {| star := kafka_logs_avro.value m;
     team_id :=
       CH.toInt32OrZero
         (CH.arrayElement (kafka_logs_avro._headers_value m)
            (CH.indexOf (kafka_logs_avro._headers_name m) "team_id")) |}.

(** The view writes TO logs22, whose maps hold no NULL.  A NULL value
    becomes the default of the column type when [null_as_default], and
    fails the insert otherwise; the schema does not say which. *)
Fixpoint not_null (V : Type) (null_as_default : bool) (d : V)
    (m : CH.Map string (option V)) : option (CH.Map string V) :=
  match m with
  | [] => Some []
  | (k, Some v) :: rest =>
      option_map (cons (k, v)) (not_null null_as_default d rest)
  | (k, None) :: rest =>
      if null_as_default
      then option_map (cons (k, d)) (not_null null_as_default d rest)
      else None
  end.

Definition to_logs22 (null_as_default : bool) (r : row) : option logs22.columns :=
  match not_null null_as_default "" (kafka_logs_avro.attributes r),
        not_null null_as_default "" (kafka_logs_avro.attributes_map_str r),
        not_null null_as_default 0%float (kafka_logs_avro.attributes_map_float r),
        not_null null_as_default 0 (kafka_logs_avro.attributes_map_datetime r) with
  | Some a, Some s, Some f, Some d =>
      Some {| logs22.uuid := kafka_logs_avro.uuid r;
              logs22.team_id := team_id r;
              logs22.trace_id := kafka_logs_avro.trace_id r;
              logs22.span_id := kafka_logs_avro.span_id r;
              logs22.trace_flags := kafka_logs_avro.trace_flags r;
              logs22.timestamp := kafka_logs_avro.timestamp r;
              logs22.observed_timestamp := kafka_logs_avro.observed_timestamp r;
              logs22.body := kafka_logs_avro.body r;
              logs22.severity_text := kafka_logs_avro.severity_text r;
              logs22.severity_number := kafka_logs_avro.severity_number r;
              logs22.service_name := kafka_logs_avro.service_name r;
              logs22.resource_attributes := kafka_logs_avro.resource_attributes r;
              logs22.resource_id := kafka_logs_avro.resource_id r;
              logs22.instrumentation_scope := kafka_logs_avro.instrumentation_scope r;
              logs22.event_name := kafka_logs_avro.event_name r;
              logs22.attributes := a;
              logs22.attributes_map_str := s;
              logs22.attributes_map_float := f;
              logs22.attributes_map_datetime := d |}
  | _, _, _, _ => None
  end.

(** a block of messages: every row converts, or the block is refused *)
Fixpoint block_to_logs22 (null_as_default : bool) (ms : list kafka_logs_avro.message)
  : option (list logs22.columns) :=
  match ms with
  | [] => Some []
  | m :: rest =>
      match to_logs22 null_as_default (select m),
            block_to_logs22 null_as_default rest with
      | Some w, Some ws => Some (w :: ws)
      | _, _ => None
      end
  end.

End kafka_logs_avro_mv.

Coercion kafka_logs_avro_mv.star : kafka_logs_avro_mv.row >-> kafka_logs_avro.row.

(** ** The store: both tables, the views that feed them, their merges *)

(** stable insertion sort, for the ORDER BY of a projection *)
Section Sorting.

Variable A : Type.
Variable leb : A -> A -> bool.

Fixpoint insert_sorted (x : A) (l : list A) : list A :=
  match l with
  | [] => [x]
  | y :: rest => if leb x y then x :: l else y :: insert_sorted x rest
  end.

Definition sort_by (l : list A) : list A := fold_right insert_sorted [] l.

End Sorting.

Section Store.

(** how [CAST(JSONExtract(_, 'Dynamic'), 'String')] prints what is not a
    plain string literal *)
Variable json_other : string -> string.
(** whether a NULL map value written by the Kafka view becomes a default *)
Variable null_as_default : bool.

(** *** The view [log_to_log_attributes] *)

(** [arrayMap((k, v) -> (k, if(length(v) > 256, '', v)),
      arrayFilter((k, v) -> (length(k) < 256),
        CAST(attributes, 'Array(Tuple(String, String))')))] *)
Definition rollup_attributes (r : logs22.row) : list (string * string) :=
  map (fun kv => (fst kv, if CH.length (snd kv) >? 256 then "" else snd kv))
    (filter (fun kv => CH.length (fst kv) <? 256) (logs22.attributes r)).

(** the GROUP BY key of the inner SELECT:
    [team_id, time_bucket, service_name, attribute], where [time_bucket] is
    the alias of [toStartOfInterval(timestamp, toIntervalMinute(10))]; for an
    interval of minutes the builtin returns a [DateTime], the 32-bit count of
    seconds that [time_bucket] of [logs22] holds too *)
Definition rollup_group_t : Type :=
  (CH.Int32 * CH.DateTime64 * string * (string * string))%type.

Definition rollup_group_eq_dec (a b : rollup_group_t) : {a = b} + {a <> b}.
Proof. repeat decide equality. Defined.

(** [arrayJoin]: one row per pair that is left *)
Definition rollup_groups (r : logs22.row) : list rollup_group_t :=
  map (fun a => (logs22.team_id r,
                 CH.toDateTime (CH.toStartOfInterval_minute 10 (logs22.timestamp r)),
                 logs22.service_name r, a))
    (rollup_attributes r).

Definition rollup_row (g : rollup_group_t) (n : CH.UInt64) : log_attributes.row :=
  let '(t, b, s, a) := g in
  {| log_attributes.team_id := t;
     log_attributes.time_bucket := b;
     log_attributes.service_name := s;
     log_attributes.attribute_key := fst a;
     log_attributes.attribute_value := CH.CAST_JSONExtract_Dynamic_String json_other (snd a);
     log_attributes.attribute_count := n |}.

(** what the view writes for one inserted block; [sumSimpleState(1)] counts
    the rows of a group *)
Definition log_to_log_attributes (block : list logs22.row) : list log_attributes.row :=
  map (fun gc => rollup_row (fst gc) (snd gc))
    (count_by_key rollup_group_eq_dec (flat_map rollup_groups block)).

(** *** State *)

Record Store : Type := {
  logs22_rows : list logs22.row;
  (** the rows of [projection_aggregate_counts] in the parts; [None] once
      a merge has dropped the projection *)
  projection_aggregate_counts : option (list (logs22.aggregate_key_t * CH.UInt64));
  log_attributes_rows : list log_attributes.row
}.

Definition empty : Store :=
  {| logs22_rows := []; projection_aggregate_counts := Some []; log_attributes_rows := [] |}.

(** a CHECK constraint is evaluated on every inserted row, an ASSUME
    constraint never is *)
Definition passes_constraints (w : logs22.columns) : bool :=
  forallb (fun c => match snd (fst c) with
                    | CHECK => snd c w
                    | ASSUME => true
                    end) logs22.constraints.

Definition build_aggregate_counts (rows : list logs22.row)
  : list (logs22.aggregate_key_t * CH.UInt64) :=
  count_by_key logs22.aggregate_key_eq_dec (map logs22.aggregate_key rows).

(** INSERT INTO logs22: the block gets its materialized columns, becomes a
    part with its projection, and goes through [log_to_log_attributes] *)
Definition insert_logs22 (now : CH.DateTime64) (block : list logs22.columns)
    (st : Store) : Store :=
  if forallb passes_constraints block then
    let rows := map (logs22.materialize now) block in
    {| logs22_rows := logs22_rows st ++ rows;
       projection_aggregate_counts :=
         option_map (fun p => p ++ build_aggregate_counts rows)
           (projection_aggregate_counts st);
       log_attributes_rows := log_attributes_rows st ++ log_to_log_attributes rows |}
  else st.

(** a block consumed from Kafka, through [kafka_logs_avro_mv] *)
Definition kafka_consume (now : CH.DateTime64) (ms : list kafka_logs_avro.message)
    (st : Store) : Store :=
  match kafka_logs_avro_mv.block_to_logs22 null_as_default ms with
  | Some block => insert_logs22 now block st
  | None => st
  end.

(** what a merge that may remove rows does to an aggregate projection:
    with [ignore] its parts are merged on their own, as an aggregating
    table; with [rebuild] it is computed again from the merged rows; with
    [drop] and [throw] the merged part has no projection *)
Definition merge_projection (mode : DeduplicateMergeProjectionMode)
    (merged : list logs22.row)
    (p : option (list (logs22.aggregate_key_t * CH.UInt64)))
  : option (list (logs22.aggregate_key_t * CH.UInt64)) :=
  match mode with
  | ignore => option_map (sum_by_key logs22.aggregate_key_eq_dec) p
  | rebuild => option_map (fun _ => build_aggregate_counts merged) p
  | drop | throw => None
  end.

Definition merge_logs22_with (mode : DeduplicateMergeProjectionMode) (st : Store) : Store :=
  let merged := replacing_merge logs22.sorting_key logs22.sorting_key_eq_dec (logs22_rows st) in
  {| logs22_rows := merged;
     projection_aggregate_counts :=
       merge_projection mode merged (projection_aggregate_counts st);
     log_attributes_rows := log_attributes_rows st |}.

(** the merge-collapse of [logs22], under the SETTINGS of the table *)
Definition merge_logs22 : Store -> Store :=
  merge_logs22_with logs22.deduplicate_merge_projection_mode.

(** the merge of [log_attributes]: [attribute_count] is summed per key *)
Definition merge_log_attributes (st : Store) : Store :=
  {| logs22_rows := logs22_rows st;
     projection_aggregate_counts := projection_aggregate_counts st;
     log_attributes_rows :=
       map (fun kc => log_attributes.of_key (fst kc) (snd kc))
         (sum_by_key log_attributes.sorting_key_eq_dec
            (map (fun r => (log_attributes.sorting_key r, log_attributes.attribute_count r))
               (log_attributes_rows st))) |}.

Inductive step : Store -> Store -> Prop :=
| step_insert now block st : step st (insert_logs22 now block st)
| step_kafka now ms st : step st (kafka_consume now ms st)
| step_merge st : step st (merge_logs22 st)
| step_merge_attributes st : step st (merge_log_attributes st).

Inductive reachable : Store -> Prop :=
| reachable_empty : reachable empty
| reachable_step st st' : reachable st -> step st st' -> reachable st'.

(** *** The query surface *)

Definition in_range (range : Z * Z) (t : Z) : bool :=
  (fst range <=? t) && (t <? snd range).

(** the rows of [projection_trace_span]: the key and the offset of the row,
    ordered by [trace_id, timestamp].  [_part_offset] is the place of a row in
    its part, which every merge writes anew, so the layout is read off the
    rows that are there. *)
Definition trace_span_leb (a b : logs22.trace_span_key_t * nat) : bool :=
  match String.compare (fst (fst a)) (fst (fst b)) with
  | Lt => true
  | Eq => snd (fst a) <=? snd (fst b)
  | Gt => false
  end.

Definition projection_trace_span (rows : list logs22.row)
  : list (logs22.trace_span_key_t * nat) :=
  sort_by trace_span_leb
    (combine (map logs22.trace_span_key rows) (seq 0 (List.length rows))).

Definition fetch (rows : list logs22.row) (offset : nat) : list logs22.row :=
  match nth_error rows offset with
  | Some r => [r]
  | None => []
  end.

(** Modelled from the spec: the read operation getByTrace of section 4.5,
    which is not in the schema file: the records of one trace of a tenant,
    ordered by timestamp, located through the trace-ordered layout. *)
Definition getByTrace (team : CH.Int32) (trace : string) (st : Store) : list logs22.row :=
  filter (fun r : logs22.row => logs22.team_id r =? team)
    (flat_map (fun e => fetch (logs22_rows st) (snd e))
       (filter (fun e => String.eqb (fst (fst e)) trace)
          (projection_trace_span (logs22_rows st)))).

Definition contains (text part : string) : bool :=
  match String.index 0 part text with
  | Some _ => true
  | None => false
  end.

(** Modelled from the spec: the read operation searchByText of section 4.5,
    which is not in the schema file: the records of a tenant in a time range
    whose body contains the substring.  The n-gram index only selects
    candidate blocks; the direct match decides. *)
Definition searchByText (team : CH.Int32) (range : Z * Z) (substring : string)
    (st : Store) : list logs22.row :=
  filter (fun r : logs22.row =>
            (logs22.team_id r =? team)
            && in_range range (logs22.timestamp r)
            && contains (logs22.body r) substring)
    (logs22_rows st).

Definition option_eqb (o : option string) (s : string) : bool :=
  match o with
  | Some s' => String.eqb s' s
  | None => true
  end.

Definition key_value_eq_dec (a b : string * string) : {a = b} + {a <> b}.
Proof. repeat decide equality. Defined.

(** Modelled from the spec: the read operation listAttributes of section
    4.5, which is not in the schema file: for a tenant, a time range and
    maybe a service, the attribute keys and values of the roll-up table with
    their counts. *)
Definition listAttributes (team : CH.Int32) (range : Z * Z) (service : option string)
    (st : Store) : list (string * string * CH.UInt64) :=
  sum_by_key key_value_eq_dec
    (map (fun r => ((log_attributes.attribute_key r, log_attributes.attribute_value r),
                    log_attributes.attribute_count r))
       (filter (fun r => (log_attributes.team_id r =? team)
                         && in_range range (log_attributes.time_bucket r)
                         && option_eqb service (log_attributes.service_name r))
          (log_attributes_rows st))).

Record groupBy : Type := {
  by_service_name : bool;
  by_severity_text : bool;
  by_resource_attributes : bool;
  by_resource_id : bool
}.

Definition dimensions_t : Type :=
  (option string * option string * option (CH.Map string string) * option string)%type.

Definition dimensions_eq_dec (a b : dimensions_t) : {a = b} + {a <> b}.
Proof. repeat decide equality. Defined.

Definition keep (A : Type) (b : bool) (x : A) : option A := if b then Some x else None.

Definition dimensions (g : groupBy) (k : logs22.aggregate_key_t) : dimensions_t :=
  let '(_, _, _, service, severity, resource, rid) := k in
  (keep (by_service_name g) service, keep (by_severity_text g) severity,
   keep (by_resource_attributes g) resource, keep (by_resource_id g) rid).

Definition aggregate_matches (team : CH.Int32) (range : Z * Z)
    (k : logs22.aggregate_key_t) : bool :=
  let '(t, bucket, _, _, _, _, _) := k in
  (t =? team) && in_range range bucket.

Definition counts_from (team : CH.Int32) (range : Z * Z) (g : groupBy)
    (layout : list (logs22.aggregate_key_t * CH.UInt64)) : list (dimensions_t * CH.UInt64) :=
  sum_by_key dimensions_eq_dec
    (map (fun kc => (dimensions g (fst kc), snd kc))
       (filter (fun kc => aggregate_matches team range (fst kc)) layout)).

(** the same counts from a scan of the rows *)
Definition counts_from_scan (team : CH.Int32) (range : Z * Z) (g : groupBy)
    (rows : list logs22.row) : list (dimensions_t * CH.UInt64) :=
  counts_from team range g (map (fun r => (logs22.aggregate_key r, 1)) rows).

(** Modelled from the spec: the read operation aggregateCounts of section
    4.5, which is not in the schema file: counts of a tenant in a time range
    per chosen dimensions, served by the coarse aggregate layout (every
    allowed grouping is among its columns), by a scan where a part has no
    such layout. *)
Definition aggregateCounts (team : CH.Int32) (range : Z * Z) (g : groupBy)
    (st : Store) : list (dimensions_t * CH.UInt64) :=
  match projection_aggregate_counts st with
  | Some layout => counts_from team range g layout
  | None => counts_from_scan team range g (logs22_rows st)
  end.

End Store.

(** ** Vocabulary of the properties *)

(** the bloom filter [a] has a lower false-positive rate than [b] *)
Definition rate_lt (l : list skip_index) (a b : string) : Prop :=
  match bloom_rate l a, bloom_rate l b with
  | Some p, Some q => (p < q)%Q
  | _, _ => False
  end.

(** the texts that denote an integer: an optional sign and at least one
    decimal digit *)
Definition digits_only (s : string) : Prop :=
  Forall (fun c => CH.is_digit c = true) (list_ascii_of_string s).

Inductive integer_text : string -> Prop :=
| integer_plain d : d <> "" -> digits_only d -> integer_text d
| integer_plus d : d <> "" -> digits_only d -> integer_text (String "+" d)
| integer_minus d : d <> "" -> digits_only d -> integer_text (String "-" d).

(** the value of the first header called [team_id], if there is one *)
Fixpoint first_header (name : string) (headers : list (string * string)) : option string :=
  match headers with
  | [] => None
  | (n, v) :: rest => if String.eqb n name then Some v else first_header name rest
  end.

(** a stored row without its wall-clock column *)
Definition stored_columns (r : logs22.row) : logs22.columns * CH.DateTime :=
  (logs22.written r, logs22.time_bucket r).

(** every stored row is an inserted row with its materialized columns *)
Definition materialized (r : logs22.row) : Prop :=
  exists now w, r = logs22.materialize now w.

(** the order of the trace-ordered layout, on the rows themselves *)
Definition trace_span_row_leb (a b : logs22.row) : bool :=
  trace_span_leb (logs22.trace_span_key a, 0%nat) (logs22.trace_span_key b, 0%nat).

(** the rows of a table that carry the sorting key of [r] *)
Definition with_key_of (r : logs22.row) (rows : list logs22.row) : list logs22.row :=
  filter (same_key logs22.sorting_key logs22.sorting_key_eq_dec r) rows.

(** the counter of an aggregate key in the coarse layout *)
Definition layout_counter (k : logs22.aggregate_key_t)
    (p : option (list (logs22.aggregate_key_t * CH.UInt64))) : CH.UInt64 :=
  match p with
  | Some layout => total logs22.aggregate_key_eq_dec k layout
  | None => 0
  end.

(** the counter of a key of [log_attributes], over all its parts *)
Definition rollup_counter (k : log_attributes.sorting_key_t)
    (rows : list log_attributes.row) : CH.UInt64 :=
  total log_attributes.sorting_key_eq_dec k
    (map (fun r => (log_attributes.sorting_key r, log_attributes.attribute_count r)) rows).

(** how many of the rows carry the aggregate key [k] *)
Definition rows_of_group (k : logs22.aggregate_key_t) (rows : list logs22.row) : Z :=
  Z.of_nat (count_occ logs22.aggregate_key_eq_dec (map logs22.aggregate_key rows) k).

(** the decimal text of an integer, as a producer writes a team id into a
    header: a minus sign for a negative number, no leading zero *)
Definition decimal (n : Z) : string := NilEmpty.string_of_int (Z.to_int n).

(** a map of the Kafka table that holds no NULL *)
Definition no_null (V : Type) (m : CH.Map string (option V)) : Prop :=
  Forall (fun kv => snd kv <> None) m.

(** a map of [logs22] read as a map of the Kafka table *)
Definition nullable (V : Type) (m : CH.Map string V) : CH.Map string (option V) :=
  map (fun kv => (fst kv, Some (snd kv))) m.

Section Vocabulary.

Variable json_other : string -> string.
Variable null_as_default : bool.

(** one record delivered once per wall-clock time of [nows], each time as a
    block of its own *)
Fixpoint deliver (nows : list CH.DateTime64) (w : logs22.columns) (st : Store) : Store :=
  match nows with
  | [] => st
  | now :: later => deliver later w (insert_logs22 json_other now [w] st)
  end.

(** blocks inserted one after the other, each at its wall-clock time *)
Fixpoint insert_all (blocks : list (CH.DateTime64 * list logs22.columns)) (st : Store)
  : Store :=
  match blocks with
  | [] => st
  | (now, block) :: later => insert_all later (insert_logs22 json_other now block st)
  end.

(** the key under which a pair that is left lands in [log_attributes] *)
Definition rollup_key (g : rollup_group_t) : log_attributes.sorting_key_t :=
  log_attributes.sorting_key (rollup_row json_other g 1).

(** how many pairs of a block land on the key [k] *)
Definition increments (k : log_attributes.sorting_key_t) (block : list logs22.row) : Z :=
  Z.of_nat (count_occ log_attributes.sorting_key_eq_dec
              (map rollup_key (flat_map rollup_groups block)) k).

(** the part of a store that belongs to one tenant *)
Definition only_team (team : CH.Int32) (st : Store) : Store :=
  {| logs22_rows := filter (fun r : logs22.row => logs22.team_id r =? team) (logs22_rows st);
     projection_aggregate_counts :=
       option_map (filter (fun kc : logs22.aggregate_key_t * CH.UInt64 =>
                             let '(t, _, _, _, _, _, _) := fst kc in t =? team))
         (projection_aggregate_counts st);
     log_attributes_rows :=
       filter (fun r => log_attributes.team_id r =? team) (log_attributes_rows st) |}.

End Vocabulary.

(** ** Sample data *)

Definition sample_log (team : CH.Int32) (trace : string) (service : string)
    (attrs attrs_str : CH.Map string string) : logs22.columns :=
  {| logs22.uuid := "0190a5c2";
     logs22.team_id := team;
     logs22.trace_id := trace;
     logs22.span_id := "51";
     logs22.trace_flags := 0;
     logs22.timestamp := 1700000000123456;
     logs22.observed_timestamp := 1700000000223456;
     logs22.body := "GET /health 200";
     logs22.severity_text := "info";
     logs22.severity_number := 9;
     logs22.service_name := service;
     logs22.resource_attributes := [];
     logs22.resource_id := "";
     logs22.instrumentation_scope := "";
     logs22.event_name := "";
     logs22.attributes := attrs;
     logs22.attributes_map_str := attrs_str;
     logs22.attributes_map_float := [];
     logs22.attributes_map_datetime := [] |}.

Definition sample_payload (service : string) (attrs_str : CH.Map string (option string))
  : kafka_logs_avro.row :=
  {| kafka_logs_avro.uuid := "0190a5c2";
     kafka_logs_avro.trace_id := "T1";
     kafka_logs_avro.span_id := "51";
     kafka_logs_avro.trace_flags := 0;
     kafka_logs_avro.timestamp := 1700000000123456;
     kafka_logs_avro.observed_timestamp := 1700000000223456;
     kafka_logs_avro.body := "GET /health 200";
     kafka_logs_avro.severity_text := "info";
     kafka_logs_avro.severity_number := 9;
     kafka_logs_avro.service_name := service;
     kafka_logs_avro.resource_attributes := [];
     kafka_logs_avro.resource_id := "";
     kafka_logs_avro.instrumentation_scope := "";
     kafka_logs_avro.event_name := "";
     kafka_logs_avro.attributes := [];
     kafka_logs_avro.attributes_map_str := attrs_str;
     kafka_logs_avro.attributes_map_float := [];
     kafka_logs_avro.attributes_map_datetime := [] |}.

Definition sample_message (headers : list (string * string)) (service : string)
    (attrs_str : CH.Map string (option string)) : kafka_logs_avro.message :=
  {| kafka_logs_avro._headers := headers;
     kafka_logs_avro.value := sample_payload service attrs_str |}.

(** a message whose payload carries [attrs] in its [attributes] map *)
Definition sample_event (headers : list (string * string))
    (attrs : CH.Map string (option string)) : kafka_logs_avro.message :=
  {| kafka_logs_avro._headers := headers;
     kafka_logs_avro.value :=
       {| kafka_logs_avro.uuid := "0190a5c2";
          kafka_logs_avro.trace_id := "T1";
          kafka_logs_avro.span_id := "51";
          kafka_logs_avro.trace_flags := 0;
          kafka_logs_avro.timestamp := 1700000000123456;
          kafka_logs_avro.observed_timestamp := 1700000000223456;
          kafka_logs_avro.body := "GET /health 200";
          kafka_logs_avro.severity_text := "info";
          kafka_logs_avro.severity_number := 9;
          kafka_logs_avro.service_name := "api";
          kafka_logs_avro.resource_attributes := [];
          kafka_logs_avro.resource_id := "";
          kafka_logs_avro.instrumentation_scope := "";
          kafka_logs_avro.event_name := "";
          kafka_logs_avro.attributes := attrs;
          kafka_logs_avro.attributes_map_str := [];
          kafka_logs_avro.attributes_map_float := [];
          kafka_logs_avro.attributes_map_datetime := [] |} |}.

(** a record moved to another event time *)
Definition at_time (t : CH.DateTime64) (w : logs22.columns) : logs22.columns :=
  {| logs22.uuid := logs22.uuid w;
     logs22.team_id := logs22.team_id w;
     logs22.trace_id := logs22.trace_id w;
     logs22.span_id := logs22.span_id w;
     logs22.trace_flags := logs22.trace_flags w;
     logs22.timestamp := t;
     logs22.observed_timestamp := logs22.observed_timestamp w;
     logs22.body := logs22.body w;
     logs22.severity_text := logs22.severity_text w;
     logs22.severity_number := logs22.severity_number w;
     logs22.service_name := logs22.service_name w;
     logs22.resource_attributes := logs22.resource_attributes w;
     logs22.resource_id := logs22.resource_id w;
     logs22.instrumentation_scope := logs22.instrumentation_scope w;
     logs22.event_name := logs22.event_name w;
     logs22.attributes := logs22.attributes w;
     logs22.attributes_map_str := logs22.attributes_map_str w;
     logs22.attributes_map_float := logs22.attributes_map_float w;
     logs22.attributes_map_datetime := logs22.attributes_map_datetime w |}.

(** in the samples, what is not a plain string literal prints as it is *)
Definition sample_json_other (s : string) : string := s.


(** the JSON string literal of a text *)
Definition quoted (s : string) : string :=
  String CH.double_quote (s ++ String CH.double_quote "")%string.

Definition by_service : groupBy :=
  {| by_service_name := true; by_severity_text := false;
     by_resource_attributes := false; by_resource_id := false |}.

(** * Properties *)

Lemma filter_none (A : Type) (f : A -> bool) (l : list A) :
  (forall x, In x l -> f x = false) -> filter f l = [].
Proof.
  induction l as [|x rest IH]; simpl; intros H; [reflexivity|].
  rewrite (H x (or_introl eq_refl)). apply IH. intros y Hy. apply H. right. assumption.
Qed.

(** ** ReplacingMergeTree *)

Section ReplacingFacts.

Variables (R K : Type) (key : R -> K).
Variable K_eq_dec : forall a b : K, {a = b} + {a <> b}.

Abbreviation same := (same_key key K_eq_dec).
Abbreviation merge := (replacing_merge key K_eq_dec).

Lemma same_key_true a b : same a b = true <-> key a = key b.
Proof.
  unfold same_key. destruct (K_eq_dec (key a) (key b)); split; congruence.
Qed.

Lemma same_key_false a b : same a b = false <-> key a <> key b.
Proof.
  unfold same_key. destruct (K_eq_dec (key a) (key b)); split; congruence.
Qed.

Lemma later_same_key r rows :
  existsb (same r) rows = true <-> In (key r) (map key rows).
Proof.
  rewrite existsb_exists, in_map_iff. split.
  - intros [y [Hy Hs]]. exists y. apply same_key_true in Hs. auto.
  - intros [y [Hk Hy]]. exists y. split; [assumption|]. apply same_key_true. auto.
Qed.

Lemma replacing_merge_In r rows : In r (merge rows) -> In r rows.
Proof.
  induction rows as [|x rest IH]; simpl; [tauto|].
  destruct (existsb (same x) rest); simpl; intuition.
Qed.

Lemma replacing_merge_keys rows k :
  In k (map key (merge rows)) <-> In k (map key rows).
Proof.
  induction rows as [|x rest IH]; simpl; [tauto|].
  destruct (existsb (same x) rest) eqn:E; simpl.
  - apply later_same_key in E. rewrite IH. split; [tauto|].
    intros [<-|H]; assumption.
  - rewrite IH. tauto.
Qed.

Lemma replacing_merge_NoDup rows : NoDup (map key (merge rows)).
Proof.
  induction rows as [|x rest IH]; simpl; [constructor|].
  destruct (existsb (same x) rest) eqn:E; simpl; [assumption|].
  constructor; [|assumption].
  rewrite replacing_merge_keys. intro H. apply later_same_key in H. congruence.
Qed.

Lemma replacing_merge_fixed rows : NoDup (map key rows) -> merge rows = rows.
Proof.
  induction rows as [|x rest IH]; simpl; [reflexivity|].
  intros H. inversion H as [|? ? Hx Hrest]; subst.
  destruct (existsb (same x) rest) eqn:E.
  - apply later_same_key in E. contradiction.
  - f_equal. auto.
Qed.

Lemma replacing_merge_idempotent rows : merge (merge rows) = merge rows.
Proof. apply replacing_merge_fixed, replacing_merge_NoDup. Qed.

Lemma filter_key_NoDup r rows :
  NoDup (map key rows) -> In (key r) (map key rows) ->
  List.length (filter (same r) rows) = 1%nat.
Proof.
  induction rows as [|x rest IH]; simpl; [tauto|].
  intros H Hin. inversion H as [|? ? Hx Hrest]; subst.
  destruct (same r x) eqn:E.
  - apply same_key_true in E. simpl. f_equal.
    rewrite (@filter_none _ (same r) rest); [reflexivity|].
    intros y Hy. apply same_key_false. intro Hk.
    apply Hx. rewrite <- E, Hk. apply in_map. assumption.
  - apply same_key_false in E. destruct Hin as [Hk|Hin]; [congruence|auto].
Qed.

(** after the merge, exactly one row carries the key of a row that was there *)
Lemma one_survivor r rows :
  In r rows -> List.length (filter (same r) (merge rows)) = 1%nat.
Proof.
  intros H. apply filter_key_NoDup.
  - apply replacing_merge_NoDup.
  - apply replacing_merge_keys, in_map, H.
Qed.

Lemma existsb_app_one r rows x :
  existsb (same r) (rows ++ [x]) = existsb (same r) rows || same r x.
Proof. rewrite existsb_app. simpl. rewrite orb_false_r. reflexivity. Qed.

(** the last insert wins *)
Lemma replacing_merge_last rows x :
  merge (rows ++ [x]) = filter (fun y => negb (same y x)) (merge rows) ++ [x].
Proof.
  induction rows as [|y rest IH]; simpl; [reflexivity|].
  rewrite existsb_app_one.
  destruct (existsb (same y) rest) eqn:E; simpl; [assumption|].
  destruct (same y x); simpl; [assumption|]. rewrite IH. reflexivity.
Qed.

(** a selection that looks at the key only commutes with the merge *)
Lemma replacing_merge_filter (P : R -> bool) rows :
  (forall a b, key a = key b -> P a = P b) ->
  filter P (merge rows) = merge (filter P rows).
Proof.
  intros HP. induction rows as [|x rest IH]; simpl; [reflexivity|].
  assert (Hex : P x = true ->
                existsb (same x) (filter P rest) = existsb (same x) rest).
  { intros Hx. apply eq_true_iff_eq. rewrite !existsb_exists.
    split; intros [y [Hy Hs]]; exists y; split; try assumption.
    - apply filter_In in Hy. tauto.
    - apply filter_In. split; [assumption|].
      apply same_key_true in Hs. rewrite <- (HP _ _ Hs). assumption. }
  destruct (P x) eqn:Px; simpl.
  - rewrite (Hex eq_refl).
    destruct (existsb (same x) rest); simpl; rewrite ?Px; congruence.
  - destruct (existsb (same x) rest); simpl; rewrite ?Px; assumption.
Qed.

End ReplacingFacts.

(** ** GROUP BY and AggregatingMergeTree *)

Lemma wrap_UInt64_add_l a b : CH.wrap_UInt64 (CH.wrap_UInt64 a + b) = CH.wrap_UInt64 (a + b).
Proof. unfold CH.wrap_UInt64. apply Zplus_mod_idemp_l. Qed.

Lemma wrap_UInt64_add_r a b : CH.wrap_UInt64 (a + CH.wrap_UInt64 b) = CH.wrap_UInt64 (a + b).
Proof. unfold CH.wrap_UInt64. apply Zplus_mod_idemp_r. Qed.

Lemma wrap_UInt64_small a : 0 <= a < 2 ^ 64 -> CH.wrap_UInt64 a = a.
Proof. intros H. unfold CH.wrap_UInt64. apply Z.mod_small. assumption. Qed.

Section AggregatingFacts.

Variable K : Type.
Variable K_eq_dec : forall a b : K, {a = b} + {a <> b}.

Abbreviation add := (add_to_group K_eq_dec).
Abbreviation step := (fun groups (kc : K * CH.UInt64) => add (fst kc) (snd kc) groups).
Abbreviation sum := (sum_by_key K_eq_dec).
Abbreviation ptotal := (plain_total K_eq_dec).
Abbreviation ctotal := (total K_eq_dec).

Lemma plain_total_app k l1 l2 : ptotal k (l1 ++ l2) = ptotal k l1 + ptotal k l2.
Proof.
  induction l1 as [|[k0 c0] rest IH]; simpl; [reflexivity|]. rewrite IH. lia.
Qed.

Lemma total_app k l1 l2 :
  ctotal k (l1 ++ l2) = CH.wrap_UInt64 (ctotal k l1 + ptotal k l2).
Proof.
  unfold total. rewrite plain_total_app, wrap_UInt64_add_l. reflexivity.
Qed.

Lemma total_add_to_group k k' c g :
  ctotal k (add k' c g) = CH.wrap_UInt64 (ptotal k g + (if K_eq_dec k' k then c else 0)).
Proof.
  unfold total. induction g as [|[k0 c0] rest IH]; simpl.
  - f_equal. lia.
  - destruct (K_eq_dec k0 k') as [E|E]; simpl.
    + subst k0. destruct (K_eq_dec k' k).
      * rewrite wrap_UInt64_add_l. f_equal. lia.
      * f_equal. lia.
    + rewrite <- wrap_UInt64_add_r, IH, wrap_UInt64_add_r. f_equal. lia.
Qed.

Lemma total_fold k rows acc :
  ctotal k (fold_left step rows acc) = CH.wrap_UInt64 (ptotal k acc + ptotal k rows).
Proof.
  revert acc. induction rows as [|[k0 c0] rest IH]; intros acc; simpl.
  - unfold total. f_equal. lia.
  - rewrite IH. rewrite <- wrap_UInt64_add_l.
    fold (ctotal k (add k0 c0 acc)). rewrite total_add_to_group.
    rewrite wrap_UInt64_add_l. f_equal. lia.
Qed.

(** summing per key keeps what every key adds up to *)
Lemma total_sum_by_key k rows : ctotal k (sum rows) = ctotal k rows.
Proof. unfold sum_by_key. rewrite total_fold. reflexivity. Qed.

Lemma plain_total_count k keys :
  ptotal k (map (fun k0 => (k0, 1)) keys) = Z.of_nat (count_occ K_eq_dec keys k).
Proof.
  induction keys as [|k0 rest IH]; simpl; [reflexivity|].
  rewrite IH. destruct (K_eq_dec k0 k); lia.
Qed.

(** [count()] gives every key the number of its rows *)
Lemma total_count_by_key k keys :
  ctotal k (count_by_key K_eq_dec keys) = CH.wrap_UInt64 (Z.of_nat (count_occ K_eq_dec keys k)).
Proof.
  unfold count_by_key. rewrite total_sum_by_key. unfold total.
  rewrite plain_total_count. reflexivity.
Qed.

Lemma add_to_group_keys k c g k' :
  In k' (map fst (add k c g)) <-> k' = k \/ In k' (map fst g).
Proof.
  induction g as [|[k0 c0] rest IH]; simpl; [intuition|].
  destruct (K_eq_dec k0 k); simpl.
  - subst. intuition congruence.
  - rewrite IH. intuition congruence.
Qed.

Lemma add_to_group_new k c g : ~ In k (map fst g) -> add k c g = g ++ [(k, c)].
Proof.
  induction g as [|[k0 c0] rest IH]; simpl; [reflexivity|].
  intros H. destruct (K_eq_dec k0 k); [tauto|]. f_equal. apply IH. tauto.
Qed.

Lemma add_to_group_NoDup k c g : NoDup (map fst g) -> NoDup (map fst (add k c g)).
Proof.
  induction g as [|[k0 c0] rest IH]; simpl; intros H.
  - constructor; [simpl; tauto|constructor].
  - inversion H as [|? ? Hk Hrest]; subst. destruct (K_eq_dec k0 k); simpl.
    + constructor; assumption.
    + constructor; [|auto]. rewrite add_to_group_keys. intros [E|E]; [congruence|tauto].
Qed.

Lemma fold_NoDup rows acc :
  NoDup (map fst acc) -> NoDup (map fst (fold_left step rows acc)).
Proof.
  revert acc. induction rows as [|x rest IH]; intros acc H; simpl; [assumption|].
  apply IH, add_to_group_NoDup, H.
Qed.

(** one row per key *)
Lemma sum_by_key_NoDup rows : NoDup (map fst (sum rows)).
Proof. apply fold_NoDup. constructor. Qed.

Lemma fold_keys rows acc k :
  In k (map fst (fold_left step rows acc)) <-> In k (map fst acc) \/ In k (map fst rows).
Proof.
  revert acc. induction rows as [|x rest IH]; intros acc; simpl; [tauto|].
  rewrite IH, add_to_group_keys. intuition.
Qed.

Lemma sum_by_key_keys rows k : In k (map fst (sum rows)) <-> In k (map fst rows).
Proof. unfold sum_by_key. rewrite fold_keys. simpl. tauto. Qed.

Lemma fold_fixed rows acc :
  NoDup (map fst rows) ->
  (forall k, In k (map fst rows) -> ~ In k (map fst acc)) ->
  fold_left step rows acc = acc ++ rows.
Proof.
  revert acc. induction rows as [|[k c] rest IH]; intros acc H Hacc; simpl.
  - rewrite app_nil_r. reflexivity.
  - inversion H as [|? ? Hk Hrest]; subst.
    rewrite add_to_group_new by (apply Hacc; simpl; tauto).
    rewrite IH; [rewrite <- app_assoc; reflexivity|assumption|].
    intros k' Hk'. rewrite map_app, in_app_iff. simpl.
    intros [E|[E|[]]]; [apply (Hacc k'); simpl; tauto|congruence].
Qed.

(** rows of distinct keys are left as they are *)
Lemma sum_by_key_fixed rows : NoDup (map fst rows) -> sum rows = rows.
Proof. intros H. unfold sum_by_key. rewrite fold_fixed; auto. Qed.

Lemma sum_by_key_idempotent rows : sum (sum rows) = sum rows.
Proof. apply sum_by_key_fixed, sum_by_key_NoDup. Qed.

(** a selection on the key commutes with the sum *)
Section Selection.

Variable P : K -> bool.

Abbreviation select := (filter (fun kc : K * CH.UInt64 => P (fst kc))).

Lemma filter_add_to_group k c g :
  select (add k c g) = if P k then add k c (select g) else select g.
Proof.
  induction g as [|[k0 c0] rest IH]; simpl.
  - destruct (P k); reflexivity.
  - destruct (K_eq_dec k0 k) as [E|E]; simpl.
    + subst k0. destruct (P k); simpl; [|reflexivity].
      destruct (K_eq_dec k k); [reflexivity|congruence].
    + rewrite IH. destruct (P k0), (P k); simpl; try reflexivity.
      destruct (K_eq_dec k0 k); [congruence|reflexivity].
Qed.

Lemma filter_fold rows acc :
  select (fold_left step rows acc) = fold_left step (select rows) (select acc).
Proof.
  revert acc. induction rows as [|[k c] rest IH]; intros acc; simpl; [reflexivity|].
  rewrite IH, filter_add_to_group. destruct (P k); reflexivity.
Qed.

Lemma filter_sum_by_key rows : select (sum rows) = sum (select rows).
Proof. unfold sum_by_key. rewrite filter_fold. reflexivity. Qed.

Lemma filter_count_by_key keys :
  select (count_by_key K_eq_dec keys) = count_by_key K_eq_dec (filter P keys).
Proof.
  unfold count_by_key. rewrite filter_sum_by_key. f_equal.
  induction keys as [|k rest IH]; simpl; [reflexivity|].
  destruct (P k); simpl; rewrite IH; reflexivity.
Qed.

End Selection.

End AggregatingFacts.

(** ** Index configuration *)

(** C7, as the schema has it: in [logs22] and in [log_attributes] the bloom
    filter over attribute values has the rate 0.001 and the one over attribute
    keys the rate 0.01, so the filter over values is the tighter of the two. *)
Theorem value_filters_have_the_lower_rate :
  bloom_rate logs22.indexes "idx_attributes_str_keys" = Some (1 # 100)%Q /\
  bloom_rate logs22.indexes "idx_attributes_str_values" = Some (1 # 1000)%Q /\
  bloom_rate log_attributes.indexes "idx_attribute_key" = Some (1 # 100)%Q /\
  bloom_rate log_attributes.indexes "idx_attribute_value" = Some (1 # 1000)%Q /\
  rate_lt logs22.indexes "idx_attributes_str_values" "idx_attributes_str_keys" /\
  rate_lt log_attributes.indexes "idx_attribute_value" "idx_attribute_key".
Proof. repeat split; reflexivity. Qed.

(** C7 as claimed fails: in neither table is the rate of the filter over keys
    below the rate of the filter over values. *)
Lemma value_filters_are_not_looser :
  ~ rate_lt logs22.indexes "idx_attributes_str_keys" "idx_attributes_str_values" /\
  ~ rate_lt log_attributes.indexes "idx_attribute_key" "idx_attribute_value".
Proof. split; intro H; vm_compute in H; discriminate. Qed.

(** ** Time buckets *)

Lemma minute_floor_in_range t :
  CH.DateTime_range t ->
  CH.toDateTime (CH.toStartOfInterval_minute 1 t) = 60 * (t / 60000000).
Proof.
  unfold CH.DateTime_range, CH.toDateTime, CH.toStartOfInterval_minute, CH.wrap_UInt32, CH.scale6.
  intros [H0 H1].
  rewrite Z.quot_div_nonneg by lia.
  replace (60 * 1) with 60 by reflexivity.
  rewrite Z.div_div by lia.
  replace (1000000 * 60) with 60000000 by reflexivity.
  assert (Hq : 0 <= t / 60000000 < 71582789).
  { split; [apply Z.div_pos; lia|apply Z.div_lt_upper_bound; lia]. }
  rewrite Z.mod_small by lia. lia.
Qed.

Lemma minute_floor_bounds t :
  60 * (t / 60000000) * CH.scale6 <= t < (60 * (t / 60000000) + 60) * CH.scale6.
Proof.
  unfold CH.scale6.
  pose proof (Z.mul_div_le t 60000000 ltac:(lia)).
  pose proof (Z.mul_succ_div_gt t 60000000 ltac:(lia)). lia.
Qed.

Lemma passes_constraints_always w : passes_constraints w = true.
Proof. reflexivity. Qed.

Lemma block_passes_constraints block : forallb passes_constraints block = true.
Proof. apply forallb_forall. intros w _. apply passes_constraints_always. Qed.

Section StoreFacts.

Variable json_other : string -> string.
Variable null_as_default : bool.

Abbreviation insert := (insert_logs22 json_other).
Abbreviation consume := (kafka_consume json_other null_as_default).
Abbreviation reach := (reachable json_other null_as_default).

Lemma insert_logs22_rows now block st :
  logs22_rows (insert now block st)
  = logs22_rows st ++ map (logs22.materialize now) block.
Proof. unfold insert_logs22. rewrite block_passes_constraints. reflexivity. Qed.

Lemma insert_logs22_layout now block st :
  projection_aggregate_counts (insert now block st)
  = option_map (fun p => p ++ build_aggregate_counts (map (logs22.materialize now) block))
      (projection_aggregate_counts st).
Proof. unfold insert_logs22. rewrite block_passes_constraints. reflexivity. Qed.

Lemma insert_logs22_attributes now block st :
  log_attributes_rows (insert now block st)
  = log_attributes_rows st
    ++ log_to_log_attributes json_other (map (logs22.materialize now) block).
Proof. unfold insert_logs22. rewrite block_passes_constraints. reflexivity. Qed.

Lemma step_materialized st st' :
  step json_other null_as_default st st' ->
  Forall materialized (logs22_rows st) -> Forall materialized (logs22_rows st').
Proof.
  assert (Hins : forall now block s, Forall materialized (logs22_rows s) ->
                   Forall materialized (logs22_rows (insert now block s))).
  { intros now block s H. rewrite insert_logs22_rows. apply Forall_app. split; [assumption|].
    apply Forall_forall. intros r Hr. apply in_map_iff in Hr. destruct Hr as [w [<- _]].
    exists now, w. reflexivity. }
  intros Hstep H. destruct Hstep; simpl; try assumption.
  - apply Hins, H.
  - unfold kafka_consume. destruct (kafka_logs_avro_mv.block_to_logs22 _ _); auto.
  - apply Forall_forall. intros r Hr. apply replacing_merge_In in Hr.
    rewrite Forall_forall in H. auto.
Qed.

Lemma reachable_materialized st : reach st -> Forall materialized (logs22_rows st).
Proof.
  induction 1 as [|st st' _ IH Hstep]; [constructor|].
  eapply step_materialized; eassumption.
Qed.

End StoreFacts.

(** C4: in every store that inserts, Kafka blocks and merges can produce,
    the [time_bucket] of a stored row is the start of the minute of its
    [timestamp]; an INSERT has no such column to set, and no step changes it.
    For the event times a [DateTime] holds, this is [timestamp] floored to 60
    seconds. *)
Theorem time_bucket_is_floored_timestamp json_other null_as_default st r :
  reachable json_other null_as_default st ->
  In r (logs22_rows st) ->
  logs22.time_bucket r
  = CH.toDateTime (CH.toStartOfInterval_minute 1 (logs22.timestamp r)) /\
  (CH.DateTime_range (logs22.timestamp r) ->
   logs22.time_bucket r = 60 * (logs22.timestamp r / 60000000) /\
   logs22.time_bucket r * CH.scale6 <= logs22.timestamp r
     < (logs22.time_bucket r + 60) * CH.scale6).
Proof.
  intros Hreach Hr.
  pose proof (reachable_materialized Hreach) as Hall.
  rewrite Forall_forall in Hall. destruct (Hall r Hr) as [now [w ->]]. simpl.
  split; [reflexivity|]. intros Hrange.
  rewrite (minute_floor_in_range Hrange).
  split; [reflexivity|]. apply minute_floor_bounds.
Qed.

Lemma time_bucket_is_floored_timestamp_witness :
  logs22.time_bucket (logs22.materialize 5 (sample_log 1 "T1" "api" [] []))
  = 60 * (1700000000123456 / 60000000).
Proof.
  refine (proj1 (proj2 (@time_bucket_is_floored_timestamp sample_json_other true
            (insert_logs22 sample_json_other 5 [sample_log 1 "T1" "api" [] []]
               empty)
            (logs22.materialize 5 (sample_log 1 "T1" "api" [] [])) _ _) _)).
  - apply reachable_step with (st := empty);
      [apply reachable_empty|apply step_insert].
  - simpl. left. reflexivity.
  - unfold CH.DateTime_range. simpl. unfold CH.scale6. lia.
Defined.

(** Outside the event times a [DateTime] holds, the bucket is not the floor:
    at 2106-02-07 06:30:00 the column holds 104 seconds, 2^32 less than the
    floor, and one microsecond before the epoch it holds 0, a minute more than
    the floor. *)
Lemma time_bucket_outside_the_DateTime_range :
  let late := at_time 4294967400000000 (sample_log 1 "T1" "api" [] []) in
  let early := at_time (-1) (sample_log 1 "T1" "api" [] []) in
  map logs22.time_bucket
    (logs22_rows (insert_logs22 sample_json_other 5 [late; early] empty))
  = [104; 0] /\
  60 * (logs22.timestamp late / 60000000) = 4294967400 /\
  60 * (logs22.timestamp early / 60000000) = -60.
Proof. vm_compute. repeat split. Qed.

(** ** The Kafka view *)

Lemma indexOf_bounds arr x : 0 <= CH.indexOf arr x.
Proof.
  induction arr as [|y rest IH]; simpl; [lia|].
  destruct (String.eqb y x); [lia|]. destruct (CH.indexOf rest x); lia.
Qed.

Lemma arrayElement_0 arr : CH.arrayElement arr 0 = "".
Proof. reflexivity. Qed.

Lemma arrayElement_succ v arr i :
  0 < i -> CH.arrayElement (v :: arr) (i + 1) = CH.arrayElement arr i.
Proof.
  intros H. unfold CH.arrayElement.
  destruct (Z.ltb_spec 0 (i + 1)); [|lia]. destruct (Z.ltb_spec 0 i); [|lia].
  replace (Z.to_nat (i + 1 - 1)) with (S (Z.to_nat (i - 1))) by lia. reflexivity.
Qed.

(** the header expression of the view picks the first header of that name *)
Lemma header_lookup name headers :
  CH.arrayElement (map snd headers) (CH.indexOf (map fst headers) name)
  = match first_header name headers with Some v => v | None => "" end.
Proof.
  induction headers as [|[n v] rest IH]; simpl; [reflexivity|].
  destruct (String.eqb n name); [reflexivity|].
  pose proof (indexOf_bounds (map fst rest) name) as Hpos.
  destruct (CH.indexOf (map fst rest) name) as [|p|p] eqn:E.
  - rewrite <- IH. reflexivity.
  - change (Z.pos (p + 1)) with (Z.pos p + 1).
    rewrite arrayElement_succ by lia. exact IH.
  - lia.
Qed.

Lemma readDigits_digits s : forall acc n, CH.readDigits acc s = Some n -> digits_only s.
Proof.
  induction s as [|c rest IH]; simpl; intros acc n H; [constructor|].
  destruct (CH.is_digit c) eqn:E; [|discriminate].
  constructor; [assumption|]. eapply IH, H.
Qed.

Lemma readUnsigned_digits s n : CH.readUnsigned s = Some n -> s <> "" /\ digits_only s.
Proof.
  destruct s as [|c rest]; [discriminate|]. intros H. split; [discriminate|].
  exact (@readDigits_digits (String c rest) 0 n H).
Qed.

(** what [readIntText] accepts is an optional sign and digits *)
Lemma readIntText_integer_text s n : CH.readIntText s = Some n -> integer_text s.
Proof.
  destruct s as [|c rest]; simpl; [discriminate|].
  destruct (Ascii.eqb_spec c "+") as [->|Hp].
  - intros H. apply readUnsigned_digits in H. apply integer_plus; tauto.
  - destruct (Ascii.eqb_spec c "-") as [->|Hm].
    + destruct (CH.readUnsigned rest) eqn:E; simpl; [|discriminate].
      intros _. apply readUnsigned_digits in E. apply integer_minus; tauto.
    + intros H. apply integer_plain; [discriminate|].
      exact (@readDigits_digits (String c rest) 0 n H).
Qed.

Lemma toInt32OrZero_malformed s : ~ integer_text s -> CH.toInt32OrZero s = 0.
Proof.
  intros H. unfold CH.toInt32OrZero. destruct (CH.readIntText s) eqn:E; [|reflexivity].
  apply readIntText_integer_text in E. contradiction.
Qed.

Lemma toInt32OrZero_range s : CH.Int32_min <= CH.toInt32OrZero s <= CH.Int32_max.
Proof.
  unfold CH.toInt32OrZero. destruct (CH.readIntText s) as [n|]; [|vm_compute; intuition discriminate].
  destruct (Z.leb_spec CH.Int32_min n); simpl; [|vm_compute; intuition discriminate].
  destruct (Z.leb_spec n CH.Int32_max); simpl; [lia|vm_compute; intuition discriminate].
Qed.

Example toInt32OrZero_samples :
  CH.toInt32OrZero "42" = 42 /\ CH.toInt32OrZero "-7" = -7 /\
  CH.toInt32OrZero "+5" = 5 /\ CH.toInt32OrZero "007" = 7 /\
  CH.toInt32OrZero "2147483647" = 2147483647 /\ CH.toInt32OrZero "2147483648" = 0 /\
  CH.toInt32OrZero "-2147483648" = -2147483648 /\ CH.toInt32OrZero "" = 0 /\
  CH.toInt32OrZero "12a" = 0 /\ CH.toInt32OrZero " 12" = 0 /\ CH.toInt32OrZero "-" = 0.
Proof. repeat split. Qed.

Lemma not_null_default (V : Type) (d : V) m :
  kafka_logs_avro_mv.not_null true d m
  = Some (map (fun kv => (fst kv, match snd kv with Some v => v | None => d end)) m).
Proof.
  induction m as [|[k [v|]] rest IH]; simpl; [reflexivity| |]; rewrite IH; reflexivity.
Qed.

Lemma block_to_logs22_default ms :
  exists block, kafka_logs_avro_mv.block_to_logs22 true ms = Some block
                /\ List.length block = List.length ms.
Proof.
  induction ms as [|m rest [block [IH Hlen]]]; simpl; [exists []; auto|].
  unfold kafka_logs_avro_mv.to_logs22 at 1. rewrite !not_null_default, IH.
  eexists. split; [reflexivity|]. simpl. congruence.
Qed.

Lemma to_logs22_headers nad m m' :
  kafka_logs_avro.value m = kafka_logs_avro.value m' ->
  (kafka_logs_avro_mv.to_logs22 nad (kafka_logs_avro_mv.select m) = None <->
   kafka_logs_avro_mv.to_logs22 nad (kafka_logs_avro_mv.select m') = None).
Proof.
  intros H. unfold kafka_logs_avro_mv.to_logs22. simpl. rewrite H.
  destruct (kafka_logs_avro_mv.not_null nad "" (kafka_logs_avro.attributes _)); [|tauto].
  destruct (kafka_logs_avro_mv.not_null nad "" (kafka_logs_avro.attributes_map_str _)); [|tauto].
  destruct (kafka_logs_avro_mv.not_null nad 0%float _); [|tauto].
  destruct (kafka_logs_avro_mv.not_null nad 0 _); [|tauto].
  split; discriminate.
Qed.

Lemma block_to_logs22_None nad m ms :
  kafka_logs_avro_mv.block_to_logs22 nad (m :: ms) = None <->
  kafka_logs_avro_mv.to_logs22 nad (kafka_logs_avro_mv.select m) = None
  \/ kafka_logs_avro_mv.block_to_logs22 nad ms = None.
Proof.
  simpl. destruct (kafka_logs_avro_mv.to_logs22 nad (kafka_logs_avro_mv.select m));
    destruct (kafka_logs_avro_mv.block_to_logs22 nad ms); intuition discriminate.
Qed.

(** whether a block converts depends on the payloads alone *)
Lemma block_to_logs22_headers nad ms ms' :
  map kafka_logs_avro.value ms = map kafka_logs_avro.value ms' ->
  (kafka_logs_avro_mv.block_to_logs22 nad ms = None <->
   kafka_logs_avro_mv.block_to_logs22 nad ms' = None).
Proof.
  revert ms'. induction ms as [|m rest IH]; intros [|m' rest'] H; try discriminate.
  - tauto.
  - inversion H as [[Hm Hrest]]. rewrite !block_to_logs22_None.
    rewrite (to_logs22_headers nad m m' Hm), (IH rest' Hrest). tauto.
Qed.

(** *** Integer texts and decimal team ids *)

Lemma digit_is_no_sign c :
  CH.is_digit c = true -> Ascii.eqb c "+" = false /\ Ascii.eqb c "-" = false.
Proof.
  intros H. split.
  - destruct (Ascii.eqb_spec c "+") as [->|_]; [discriminate H | reflexivity].
  - destruct (Ascii.eqb_spec c "-") as [->|_]; [discriminate H | reflexivity].
Qed.

Lemma readDigits_total s : digits_only s -> forall acc, exists n, CH.readDigits acc s = Some n.
Proof.
  unfold digits_only. induction s as [|c rest IH]; simpl; intros H acc.
  - exists acc. reflexivity.
  - inversion H as [|x l Hc Hrest]; subst. rewrite Hc. apply IH. exact Hrest.
Qed.

Lemma readUnsigned_total s :
  s <> "" -> digits_only s -> exists n, CH.readUnsigned s = Some n.
Proof.
  intros Hs Hd. destruct s as [|c rest]; [congruence|].
  apply (readDigits_total Hd).
Qed.

(** every integer text is read as a number *)
Lemma readIntText_total s : integer_text s -> exists n, CH.readIntText s = Some n.
Proof.
  intros [d Hd Hdigits|d Hd Hdigits|d Hd Hdigits].
  - destruct d as [|c rest]; [congruence|].
    assert (Hc : CH.is_digit c = true) by (inversion Hdigits; assumption).
    destruct (digit_is_no_sign c Hc) as [Hp Hm].
    cbn [CH.readIntText]. rewrite Hp, Hm.
    apply (@readUnsigned_total (String c rest)); assumption.
  - cbn [CH.readIntText]. change (Ascii.eqb "+" "+") with true. cbv iota.
    apply readUnsigned_total; assumption.
  - cbn [CH.readIntText]. change (Ascii.eqb "-" "+") with false.
    change (Ascii.eqb "-" "-") with true. cbv iota.
    destruct (readUnsigned_total Hd Hdigits) as [n ->]. exists (- n). reflexivity.
Qed.

Example decimal_samples :
  decimal 0 = "0" /\ decimal 42 = "42" /\ decimal (-7) = "-7" /\
  decimal 2147483647 = "2147483647" /\ decimal (-2147483648) = "-2147483648".
Proof. repeat split. Qed.

Lemma readDigits_of_uint_acc d : forall acc,
  CH.readDigits (Z.pos acc) (NilEmpty.string_of_uint d)
  = Some (Z.pos (Pos.of_uint_acc d acc)).
Proof.
  induction d; intros acc; cbn [NilEmpty.string_of_uint CH.readDigits Pos.of_uint_acc];
    [reflexivity| ..];
    change (CH.is_digit _) with true; cbv iota; rewrite <- IHd; f_equal;
    match goal with
    | |- context [CH.digit_value ?c] =>
        let v := eval vm_compute in (CH.digit_value c) in
        change (CH.digit_value c) with v
    end; lia.
Qed.

Lemma readDigits_of_uint d :
  CH.readDigits 0 (NilEmpty.string_of_uint d) = Some (Z.of_N (Pos.of_uint d)).
Proof.
  induction d; cbn [NilEmpty.string_of_uint CH.readDigits Pos.of_uint];
    [reflexivity| ..];
    change (CH.is_digit _) with true; cbv iota;
    match goal with
    | |- context [CH.digit_value ?c] =>
        let v := eval vm_compute in (0 * 10 + CH.digit_value c) in
        change (0 * 10 + CH.digit_value c) with v
    end;
    [exact IHd | apply readDigits_of_uint_acc ..].
Qed.

Lemma readIntText_of_uint d :
  d <> Decimal.Nil ->
  CH.readIntText (NilEmpty.string_of_uint d) = Some (Z.of_N (Pos.of_uint d)) /\
  CH.readUnsigned (NilEmpty.string_of_uint d) = Some (Z.of_N (Pos.of_uint d)).
Proof.
  intros Hd. rewrite <- readDigits_of_uint.
  destruct d; [congruence| ..]; split; reflexivity.
Qed.

Lemma to_uint_not_Nil p : Pos.to_uint p <> Decimal.Nil.
Proof.
  intros H. pose proof (DecimalPos.Unsigned.of_to p) as E.
  rewrite H in E. discriminate E.
Qed.

Lemma readIntText_decimal n : CH.readIntText (decimal n) = Some n.
Proof.
  destruct n as [|p|p]; [reflexivity| |].
  - unfold decimal. cbn [Z.to_int NilEmpty.string_of_int].
    rewrite (proj1 (readIntText_of_uint (to_uint_not_Nil p))).
    rewrite DecimalPos.Unsigned.of_to. reflexivity.
  - unfold decimal. cbn [Z.to_int NilEmpty.string_of_int].
    cbn [CH.readIntText]. change (Ascii.eqb "-" "+") with false.
    change (Ascii.eqb "-" "-") with true. cbv iota.
    rewrite (proj2 (readIntText_of_uint (to_uint_not_Nil p))).
    rewrite DecimalPos.Unsigned.of_to. reflexivity.
Qed.

Lemma select_team_decimal m n :
  first_header "team_id" (kafka_logs_avro._headers m) = Some (decimal n) ->
  CH.Int32_min <= n <= CH.Int32_max ->
  kafka_logs_avro_mv.team_id (kafka_logs_avro_mv.select m) = n.
Proof.
  intros Hm Hn. unfold kafka_logs_avro_mv.select. cbn [kafka_logs_avro_mv.team_id].
  unfold kafka_logs_avro._headers_value, kafka_logs_avro._headers_name.
  rewrite header_lookup, Hm. unfold CH.toInt32OrZero. rewrite readIntText_decimal.
  destruct (Z.leb_spec CH.Int32_min n); destruct (Z.leb_spec n CH.Int32_max);
    simpl; try reflexivity; lia.
Qed.

(** C5: the [team_id] the Kafka view gives a message is [toInt32OrZero] of
    the first header called team_id: it depends on the headers alone, is 0
    when there is no such header, when its value is not an integer text and
    when the integer does not fit 32 bits, and is the integer the header
    denotes when that fits 32 bits: a header that holds the decimal text of
    a tenant id gives that tenant.  It always is a 32-bit integer; the
    payload is copied as it is, and whether a block converts does not depend
    on any header. *)
Theorem team_id_resolved_from_headers (m : kafka_logs_avro.message) :
  let team (m : kafka_logs_avro.message) :=
    kafka_logs_avro_mv.team_id (kafka_logs_avro_mv.select m) in
  let header := first_header "team_id" (kafka_logs_avro._headers m) in
  team m = CH.toInt32OrZero (match header with Some v => v | None => "" end) /\
  (forall m', kafka_logs_avro._headers m' = kafka_logs_avro._headers m -> team m' = team m) /\
  (header = None -> team m = 0) /\
  (forall v, header = Some v -> ~ integer_text v -> team m = 0) /\
  (forall v n, header = Some v -> CH.readIntText v = Some n ->
               ~ CH.Int32_min <= n <= CH.Int32_max -> team m = 0) /\
  (forall v n, header = Some v -> CH.readIntText v = Some n ->
               CH.Int32_min <= n <= CH.Int32_max -> team m = n) /\
  (forall v, header = Some v -> integer_text v ->
             exists n, CH.readIntText v = Some n /\
                       team m = if (CH.Int32_min <=? n) && (n <=? CH.Int32_max)
                                then n else 0) /\
  (forall n, header = Some (decimal n) -> CH.Int32_min <= n <= CH.Int32_max ->
             team m = n) /\
  (forall n, CH.readIntText (decimal n) = Some n) /\
  CH.Int32_min <= team m <= CH.Int32_max /\
  kafka_logs_avro_mv.star (kafka_logs_avro_mv.select m) = kafka_logs_avro.value m /\
  (forall ms, exists block,
      kafka_logs_avro_mv.block_to_logs22 true (m :: ms) = Some block
      /\ List.length block = S (List.length ms)) /\
  (forall null_as_default m' ms,
      kafka_logs_avro.value m' = kafka_logs_avro.value m ->
      (kafka_logs_avro_mv.block_to_logs22 null_as_default (m' :: ms) = None <->
       kafka_logs_avro_mv.block_to_logs22 null_as_default (m :: ms) = None)).
Proof.
  cbv zeta.
  assert (Hteam : forall m0, kafka_logs_avro_mv.team_id (kafka_logs_avro_mv.select m0)
            = CH.toInt32OrZero
                (match first_header "team_id" (kafka_logs_avro._headers m0) with
                 | Some v => v | None => "" end)).
  { intros m0. simpl. unfold kafka_logs_avro._headers_value, kafka_logs_avro._headers_name.
    rewrite header_lookup. reflexivity. }
  split; [apply Hteam|].
  split; [intros m' H; rewrite !Hteam, H; reflexivity|].
  split; [intros H; rewrite Hteam, H; reflexivity|].
  split; [intros v H Hv; rewrite Hteam, H; apply toInt32OrZero_malformed, Hv|].
  split.
  { intros v n H Hn Hrange. rewrite Hteam, H. unfold CH.toInt32OrZero. rewrite Hn.
    destruct (Z.leb_spec CH.Int32_min n); simpl; [|reflexivity].
    destruct (Z.leb_spec n CH.Int32_max); simpl; [lia|reflexivity]. }
  split.
  { intros v n H Hn Hrange. rewrite Hteam, H. unfold CH.toInt32OrZero. rewrite Hn.
    destruct (Z.leb_spec CH.Int32_min n); simpl; [|lia].
    destruct (Z.leb_spec n CH.Int32_max); simpl; [reflexivity|lia]. }
  split.
  { intros v H Hv. destruct (readIntText_total Hv) as [n Hn]. exists n.
    split; [exact Hn|]. rewrite Hteam, H. unfold CH.toInt32OrZero. rewrite Hn.
    reflexivity. }
  split; [intros n H Hn; exact (@select_team_decimal m n H Hn)|].
  split; [exact readIntText_decimal|].
  split; [rewrite Hteam; apply toInt32OrZero_range|].
  split; [reflexivity|].
  split; [intros ms; apply (block_to_logs22_default (m :: ms))|].
  intros nad m' ms H. apply block_to_logs22_headers. simpl. f_equal. exact H.
Qed.

Lemma team_id_resolved_from_headers_witness :
  kafka_logs_avro_mv.team_id
    (kafka_logs_avro_mv.select (sample_message [("token", "phc_1")] "api" [])) = 0
  /\ kafka_logs_avro_mv.team_id
       (kafka_logs_avro_mv.select (sample_message [("team_id", "2x")] "api" [])) = 0
  /\ kafka_logs_avro_mv.team_id
       (kafka_logs_avro_mv.select
          (sample_message [("trace", "T1"); ("team_id", "42"); ("team_id", "7")] "api" []))
     = 42
  /\ kafka_logs_avro_mv.team_id
       (kafka_logs_avro_mv.select (sample_message [("team_id", "-2147483648")] "api" []))
     = -2147483648
  /\ kafka_logs_avro_mv.team_id
       (kafka_logs_avro_mv.select (sample_message [("team_id", "2147483648")] "api" []))
     = 0.
Proof.
  split; [|split; [|split; [|split]]].
  - refine (proj1 (proj2 (proj2 (team_id_resolved_from_headers
              (sample_message [("token", "phc_1")] "api" [])))) _).
    reflexivity.
  - refine (proj1 (proj2 (proj2 (proj2 (team_id_resolved_from_headers
              (sample_message [("team_id", "2x")] "api" []))))) "2x" eq_refl _).
    intros H. inversion H as [d _ Hd|d _ Hd|d _ Hd]; subst.
    inversion Hd as [|c l Hc Hl]; subst. inversion Hl as [|c' l' Hc' Hl']; subst.
    discriminate Hc'.
  - pose proof (team_id_resolved_from_headers
                  (sample_message [("trace", "T1"); ("team_id", "42"); ("team_id", "7")]
                     "api" [])) as H.
    cbv zeta in H. destruct H as (_ & _ & _ & _ & _ & _ & _ & H & _).
    apply (H 42); [reflexivity|]. unfold CH.Int32_min, CH.Int32_max. lia.
  - pose proof (team_id_resolved_from_headers
                  (sample_message [("team_id", "-2147483648")] "api" [])) as H.
    cbv zeta in H. destruct H as (_ & _ & _ & _ & _ & _ & _ & H & _).
    apply (H (-2147483648)); [reflexivity|]. unfold CH.Int32_min, CH.Int32_max. lia.
  - pose proof (team_id_resolved_from_headers
                  (sample_message [("team_id", "2147483648")] "api" [])) as H.
    cbv zeta in H. destruct H as (_ & _ & _ & _ & H & _).
    apply (H "2147483648" 2147483648); [reflexivity | reflexivity|].
    unfold CH.Int32_min, CH.Int32_max. lia.
Defined.

(** ** The roll-up view *)

(** counters survive a sum per key even when read under a coarser key *)
Section Rekey.

Variables K1 K2 : Type.
Variable K1_eq_dec : forall a b : K1, {a = b} + {a <> b}.
Variable K2_eq_dec : forall a b : K2, {a = b} + {a <> b}.
Variable f : K1 -> K2.

Abbreviation rekey := (map (fun kc : K1 * CH.UInt64 => (f (fst kc), snd kc))).
Abbreviation ptotal2 := (plain_total K2_eq_dec).

Lemma rekey_add_to_group k2 k c g :
  CH.wrap_UInt64 (ptotal2 k2 (rekey (add_to_group K1_eq_dec k c g)))
  = CH.wrap_UInt64 (ptotal2 k2 (rekey g) + (if K2_eq_dec (f k) k2 then c else 0)).
Proof.
  induction g as [|[k0 c0] rest IH]; simpl.
  - f_equal. lia.
  - destruct (K1_eq_dec k0 k) as [E|E]; simpl.
    + subst k0. destruct (K2_eq_dec (f k) k2).
      * rewrite wrap_UInt64_add_l. f_equal. lia.
      * f_equal. lia.
    + rewrite <- wrap_UInt64_add_r, IH, wrap_UInt64_add_r. f_equal. lia.
Qed.

Lemma rekey_fold k2 rows acc :
  CH.wrap_UInt64
    (ptotal2 k2 (rekey (fold_left
       (fun groups kc => add_to_group K1_eq_dec (fst kc) (snd kc) groups) rows acc)))
  = CH.wrap_UInt64 (ptotal2 k2 (rekey acc) + ptotal2 k2 (rekey rows)).
Proof.
  revert acc. induction rows as [|[k0 c0] rest IH]; intros acc; simpl.
  - f_equal. lia.
  - rewrite IH, <- wrap_UInt64_add_l, rekey_add_to_group, wrap_UInt64_add_l.
    f_equal. lia.
Qed.

Lemma rekey_sum_by_key k2 rows :
  total K2_eq_dec k2 (rekey (sum_by_key K1_eq_dec rows)) = total K2_eq_dec k2 (rekey rows).
Proof. unfold total, sum_by_key. rewrite rekey_fold. reflexivity. Qed.

Lemma rekey_count_by_key k2 keys :
  total K2_eq_dec k2 (rekey (count_by_key K1_eq_dec keys))
  = CH.wrap_UInt64 (Z.of_nat (count_occ K2_eq_dec (map f keys) k2)).
Proof.
  unfold count_by_key. rewrite rekey_sum_by_key. unfold total. f_equal.
  induction keys as [|k rest IH]; simpl; [reflexivity|].
  rewrite IH. destruct (K2_eq_dec (f k) k2); lia.
Qed.

End Rekey.

Section RollupFacts.

Variable json_other : string -> string.
Variable null_as_default : bool.

Abbreviation view := (log_to_log_attributes json_other).
Abbreviation groups_of := (fun block => flat_map rollup_groups block).
Abbreviation guard := (fun v : string => if CH.length v >? 256 then "" else v).

Lemma rollup_attributes_In r k v' :
  In (k, v') (rollup_attributes r) <->
  exists v, In (k, v) (logs22.attributes r) /\ CH.length k < 256 /\ v' = guard v.
Proof.
  unfold rollup_attributes. rewrite in_map_iff. split.
  - intros [[k0 v0] [E H]]. simpl in E. inversion E; subst.
    apply filter_In in H. destruct H as [H Hk]. simpl in Hk.
    exists v0. repeat split; [assumption|apply Z.ltb_lt, Hk].
  - intros [v [H [Hk ->]]]. exists (k, v). split; [reflexivity|].
    apply filter_In. split; [assumption|]. simpl. apply Z.ltb_lt, Hk.
Qed.

(** the groups of the inner SELECT: one per pair with a key under 256 bytes *)
Lemma rollup_groups_In block g :
  In g (groups_of block) <->
  exists r k v, In r block /\ In (k, v) (logs22.attributes r) /\ CH.length k < 256 /\
    g = (logs22.team_id r,
         CH.toDateTime (CH.toStartOfInterval_minute 10 (logs22.timestamp r)),
         logs22.service_name r, (k, guard v)).
Proof.
  rewrite in_flat_map. split.
  - intros [r [Hr Hg]]. unfold rollup_groups in Hg. apply in_map_iff in Hg.
    destruct Hg as [[k v'] [<- Ha]]. apply rollup_attributes_In in Ha.
    destruct Ha as [v [Hv [Hk ->]]]. exists r, k, v. auto.
  - intros [r [k [v [Hr [Hv [Hk ->]]]]]]. exists r. split; [assumption|].
    unfold rollup_groups. apply in_map_iff. exists (k, guard v). split; [reflexivity|].
    apply rollup_attributes_In. exists v. auto.
Qed.

Lemma view_In block row :
  In row (view block) <->
  exists g n, In (g, n) (count_by_key rollup_group_eq_dec (groups_of block))
              /\ row = rollup_row json_other g n.
Proof.
  unfold log_to_log_attributes. rewrite in_map_iff. split.
  - intros [[g n] [<- H]]. exists g, n. auto.
  - intros [g [n [H ->]]]. exists (g, n). auto.
Qed.

Lemma count_by_key_groups block g :
  In g (map fst (count_by_key rollup_group_eq_dec (groups_of block)))
  <-> In g (groups_of block).
Proof.
  unfold count_by_key. rewrite sum_by_key_keys, map_map. simpl. rewrite map_id. tauto.
Qed.

Lemma rollup_row_key g n :
  log_attributes.sorting_key (rollup_row json_other g n) = rollup_key json_other g.
Proof. destruct g as [[[t b] s] a]. reflexivity. Qed.

Lemma rollup_row_count g n : log_attributes.attribute_count (rollup_row json_other g n) = n.
Proof. destruct g as [[[t b] s] a]. reflexivity. Qed.

Lemma view_counter k block :
  rollup_counter k (view block) = CH.wrap_UInt64 (increments json_other k block).
Proof.
  unfold rollup_counter, log_to_log_attributes, increments. rewrite map_map.
  rewrite (map_ext _ (fun gc => (rollup_key json_other (fst gc), snd gc))).
  - apply rekey_count_by_key.
  - intros [g n]. simpl. rewrite rollup_row_key, rollup_row_count. reflexivity.
Qed.

Lemma of_key_key k n : log_attributes.sorting_key (log_attributes.of_key k n) = k.
Proof. destruct k as [[[[t s] b] ak] av]. reflexivity. Qed.

Lemma of_key_count k n : log_attributes.attribute_count (log_attributes.of_key k n) = n.
Proof. destruct k as [[[[t s] b] ak] av]. reflexivity. Qed.

Lemma merge_log_attributes_pairs st :
  map (fun r => (log_attributes.sorting_key r, log_attributes.attribute_count r))
    (log_attributes_rows (merge_log_attributes st))
  = sum_by_key log_attributes.sorting_key_eq_dec
      (map (fun r => (log_attributes.sorting_key r, log_attributes.attribute_count r))
         (log_attributes_rows st)).
Proof.
  simpl. rewrite map_map. rewrite <- (map_id (sum_by_key _ _)) at 2.
  apply map_ext. intros [k n]. simpl. rewrite of_key_key, of_key_count. reflexivity.
Qed.

Lemma merge_log_attributes_counter k st :
  rollup_counter k (log_attributes_rows (merge_log_attributes st))
  = rollup_counter k (log_attributes_rows st).
Proof.
  unfold rollup_counter. rewrite merge_log_attributes_pairs. apply total_sum_by_key.
Qed.

Lemma insert_counter k now block st :
  rollup_counter k (log_attributes_rows (insert_logs22 json_other now block st))
  = CH.wrap_UInt64
      (rollup_counter k (log_attributes_rows st)
       + increments json_other k (map (logs22.materialize now) block)).
Proof.
  rewrite insert_logs22_attributes. unfold rollup_counter. rewrite map_app, total_app.
  rewrite <- wrap_UInt64_add_r.
  change (CH.wrap_UInt64 (plain_total log_attributes.sorting_key_eq_dec k ?l))
    with (total log_attributes.sorting_key_eq_dec k l).
  fold (rollup_counter k (view (map (logs22.materialize now) block))).
  rewrite view_counter, wrap_UInt64_add_r. reflexivity.
Qed.

Lemma ten_minute_floor t :
  0 <= t -> CH.toStartOfInterval_minute 10 t = 600 * (t / 600000000).
Proof.
  intros H. unfold CH.toStartOfInterval_minute, CH.scale6.
  rewrite Z.quot_div_nonneg by lia.
  replace (60 * 10) with 600 by reflexivity.
  rewrite Z.div_div by lia. replace (1000000 * 600) with 600000000 by reflexivity. lia.
Qed.

Lemma total_range (K : Type) (dec : forall a b : K, {a = b} + {a <> b}) k rows :
  0 <= total dec k rows < 2 ^ 64.
Proof. unfold total, CH.wrap_UInt64. apply Z.mod_pos_bound. lia. Qed.

End RollupFacts.

Lemma ten_minute_in_range t :
  CH.DateTime_range t ->
  CH.toDateTime (CH.toStartOfInterval_minute 10 t) = 600 * (t / 600000000).
Proof.
  intros Hrange. pose proof Hrange as [H0 H1]. rewrite (ten_minute_floor H0).
  unfold CH.toDateTime, CH.wrap_UInt32. unfold CH.scale6 in H1.
  assert (Hq : 0 <= t / 600000000 < 7158279).
  { split; [apply Z.div_pos; lia|apply Z.div_lt_upper_bound; lia]. }
  rewrite Z.mod_small by lia. reflexivity.
Qed.

Lemma ten_minute_bounds t :
  600 * (t / 600000000) * CH.scale6 <= t < (600 * (t / 600000000) + 600) * CH.scale6.
Proof.
  unfold CH.scale6.
  pose proof (Z.mul_div_le t 600000000 ltac:(lia)).
  pose proof (Z.mul_succ_div_gt t 600000000 ltac:(lia)). lia.
Qed.

(** C8, as the view has it: the view keeps of every record of a block the
    pairs whose key is shorter than 256 bytes, one group element each, with
    [team_id], the 10-minute start of [timestamp] (for the event times a
    [DateTime] holds: [timestamp] floored to 600 seconds), [service_name],
    the key and the value emptied when longer than 256 bytes; it writes one row
    per group with the number of its pairs, and the row carries the value
    JSON-decoded.  The key of the table therefore holds the decoded value.
    [log_attributes] adds the counts to the counter of that key (modulo 2^64),
    merges keep the counters, and a counter only grows as long as 64 bits hold
    it. *)
Theorem rollup_counts_every_pair json_other now block st k :
  let rows := map (logs22.materialize now) block in
  let bucket (w : logs22.columns) :=
    CH.toDateTime (CH.toStartOfInterval_minute 10 (logs22.timestamp w)) in
  let guarded (v : string) := if CH.length v >? 256 then "" else v in
  let decoded := CH.CAST_JSONExtract_Dynamic_String json_other in
  let key_of (g : rollup_group_t) : log_attributes.sorting_key_t :=
    let '(t, b, s, a) := g in (t, s, b, fst a, decoded (snd a)) in
  let groups := flat_map rollup_groups rows in
  let written := count_by_key rollup_group_eq_dec groups in
  groups
  = flat_map
      (fun w : logs22.columns =>
         map (fun kv => (logs22.team_id w, bucket w, logs22.service_name w,
                         (fst kv, guarded (snd kv))))
           (filter (fun kv => CH.length (fst kv) <? 256) (logs22.attributes w)))
      block /\
  (forall g, In g groups <->
     exists w key value, In w block /\ In (key, value) (logs22.attributes w) /\
       CH.length key < 256 /\
       g = (logs22.team_id w, bucket w, logs22.service_name w, (key, guarded value))) /\
  (forall w : logs22.columns, CH.DateTime_range (logs22.timestamp w) ->
     bucket w = 600 * (logs22.timestamp w / 600000000) /\
     bucket w * CH.scale6 <= logs22.timestamp w < (bucket w + 600) * CH.scale6) /\
  log_to_log_attributes json_other rows
  = map (fun gc : rollup_group_t * CH.UInt64 =>
           let '(t, b, s, a, n) := gc in
           {| log_attributes.team_id := t;
              log_attributes.time_bucket := b;
              log_attributes.service_name := s;
              log_attributes.attribute_key := fst a;
              log_attributes.attribute_value := decoded (snd a);
              log_attributes.attribute_count := n |})
      written /\
  (forall g, rollup_key json_other g = key_of g) /\
  NoDup (map fst written) /\
  (forall g, In g (map fst written) <-> In g groups) /\
  (forall g, total rollup_group_eq_dec g written
             = CH.wrap_UInt64 (Z.of_nat (count_occ rollup_group_eq_dec groups g))) /\
  increments json_other k rows
  = Z.of_nat (count_occ log_attributes.sorting_key_eq_dec (map key_of groups) k) /\
  rollup_counter k (log_attributes_rows (insert_logs22 json_other now block st))
  = CH.wrap_UInt64 (rollup_counter k (log_attributes_rows st)
                    + increments json_other k rows) /\
  rollup_counter k (log_attributes_rows (merge_log_attributes st))
  = rollup_counter k (log_attributes_rows st) /\
  rollup_counter k (log_attributes_rows (merge_logs22 st))
  = rollup_counter k (log_attributes_rows st) /\
  (rollup_counter k (log_attributes_rows st) + increments json_other k rows < 2 ^ 64 ->
   rollup_counter k (log_attributes_rows st)
   <= rollup_counter k (log_attributes_rows (insert_logs22 json_other now block st))).
Proof.
  cbv zeta.
  assert (Hkey : forall g : rollup_group_t,
            rollup_key json_other g
            = (let '(t, b, s, a) := g in
               (t, s, b, fst a, CH.CAST_JSONExtract_Dynamic_String json_other (snd a)))).
  { intros [[[t b] s] a]. reflexivity. }
  split; [|split; [|split; [|split; [|split; [|split; [|split; [|split; [|split;
    [|split; [|split; [|split]]]]]]]]]]].
  - induction block as [|w rest IH]; [reflexivity|].
    cbn [map flat_map]. rewrite IH. f_equal.
    unfold rollup_groups, rollup_attributes. rewrite map_map. reflexivity.
  - intros g. split.
    + intros H. apply rollup_groups_In in H.
      destruct H as [r [key [v [Hr [Hv [Hk ->]]]]]].
      apply in_map_iff in Hr. destruct Hr as [w [<- Hw]]. exists w, key, v. auto.
    + intros [w [key [v [Hw [Hv [Hk ->]]]]]]. apply rollup_groups_In.
      exists (logs22.materialize now w), key, v.
      split; [apply in_map, Hw|]. split; [exact Hv|]. split; [exact Hk | reflexivity].
  - intros w Hrange. rewrite (ten_minute_in_range Hrange).
    split; [reflexivity | apply ten_minute_bounds].
  - unfold log_to_log_attributes. apply map_ext.
    intros [[[[t b] s] a] n]. reflexivity.
  - exact Hkey.
  - apply sum_by_key_NoDup.
  - apply count_by_key_groups.
  - intros g. apply total_count_by_key.
  - unfold increments. do 2 f_equal. apply map_ext. exact Hkey.
  - apply insert_counter.
  - apply merge_log_attributes_counter.
  - reflexivity.
  - intros H. rewrite insert_counter.
    pose proof (total_range log_attributes.sorting_key_eq_dec k
                  (map (fun r => (log_attributes.sorting_key r,
                                  log_attributes.attribute_count r))
                     (log_attributes_rows st))) as Hr.
    fold (rollup_counter k (log_attributes_rows st)) in Hr.
    assert (0 <= increments json_other k (map (logs22.materialize now) block))
      by (unfold increments; lia).
    rewrite wrap_UInt64_small; lia.
Qed.

Lemma rollup_counts_every_pair_witness :
  rollup_counter (1, "api", 1699999800, "env", "prod")
    (log_attributes_rows
       (insert_logs22 sample_json_other 5
          [sample_log 1 "T1" "api" [("env", quoted "prod"); ("env", quoted "prod")] []]
          empty))
  = 2 /\
  log_to_log_attributes sample_json_other
    [logs22.materialize 5
       (sample_log 1 "T1" "api" [("env", quoted "prod"); ("env", quoted "prod")] [])]
  = [{| log_attributes.team_id := 1;
        log_attributes.time_bucket := 1699999800;
        log_attributes.service_name := "api";
        log_attributes.attribute_key := "env";
        log_attributes.attribute_value := "prod";
        log_attributes.attribute_count := 2 |}].
Proof.
  pose proof (@rollup_counts_every_pair sample_json_other 5
                [sample_log 1 "T1" "api" [("env", quoted "prod"); ("env", quoted "prod")] []]
                empty (1, "api", 1699999800, "env", "prod")) as H.
  cbv zeta in H.
  destruct H as (_ & _ & _ & Hrows & _ & _ & _ & _ & _ & Hcount & _).
  split.
  - etransitivity; [exact Hcount | vm_compute; reflexivity].
  - etransitivity; [exact Hrows | vm_compute; reflexivity].
Defined.

(** The key of the table holds the decoded value, not the value of the pair:
    a record with the attribute env, whose value is the JSON string of prod,
    counts under prod and not under the JSON string.  Before the epoch the
    10-minute start is not the floor: one microsecond before it the bucket is
    0, while the floor is 600 seconds earlier. *)
Lemma rollup_key_holds_the_decoded_value :
  let st := insert_logs22 sample_json_other 5
              [sample_log 1 "T1" "api" [("env", quoted "prod")] []] empty in
  let early := insert_logs22 sample_json_other 5
                 [at_time (-1) (sample_log 1 "T1" "api" [("env", quoted "prod")] [])]
                 empty in
  rollup_counter (1, "api", 1699999800, "env", quoted "prod") (log_attributes_rows st) = 0 /\
  rollup_counter (1, "api", 1699999800, "env", "prod") (log_attributes_rows st) = 1 /\
  map log_attributes.time_bucket (log_attributes_rows early) = [0] /\
  600 * (-1 / 600000000) = -600.
Proof. vm_compute. repeat split. Qed.

(** ** JSON values in the roll-up *)

Lemma letter_is_no_quote c : CH.is_letter c = true -> Ascii.eqb c CH.double_quote = false.
Proof.
  intros H. destruct (Ascii.eqb_spec c CH.double_quote) as [->|]; [|reflexivity].
  vm_compute in H. discriminate.
Qed.

Lemma letters_then_quote_spec b :
  Forall (fun c => CH.is_letter c = true) (list_ascii_of_string b) ->
  CH.letters_then_quote (b ++ String CH.double_quote "")%string = Some b.
Proof.
  induction b as [|c rest IH]; simpl; intros H; [reflexivity|].
  inversion H as [|? ? Hc Hrest]; subst.
  rewrite (letter_is_no_quote _ Hc), Hc, (IH Hrest). reflexivity.
Qed.

(** a JSON string of letters prints as its content *)
Lemma plain_string_literal_quoted b :
  Forall (fun c => CH.is_letter c = true) (list_ascii_of_string b) ->
  CH.plain_string_literal (quoted b) = Some b.
Proof. intros H. unfold quoted. simpl. apply letters_then_quote_spec, H. Qed.

Lemma length_append_one s c :
  String.length (s ++ String c "")%string = S (String.length s).
Proof. induction s as [|c0 rest IH]; simpl; [reflexivity|]. rewrite IH. reflexivity. Qed.

Lemma quoted_differs b : quoted b <> b.
Proof.
  intros H. apply (f_equal String.length) in H. unfold quoted in H. simpl in H.
  rewrite length_append_one in H. lia.
Qed.

Section ValueFacts.

Variable json_other : string -> string.

Lemma every_pair_has_a_row (block : list logs22.row) (r : logs22.row) k v :
  In r block -> In (k, v) (logs22.attributes r) -> CH.length k < 256 ->
  exists row, In row (log_to_log_attributes json_other block)
    /\ log_attributes.team_id row = logs22.team_id r
    /\ log_attributes.time_bucket row
       = CH.toDateTime (CH.toStartOfInterval_minute 10 (logs22.timestamp r))
    /\ log_attributes.service_name row = logs22.service_name r
    /\ log_attributes.attribute_key row = k
    /\ log_attributes.attribute_value row
       = CH.CAST_JSONExtract_Dynamic_String json_other
           (if CH.length v >? 256 then "" else v).
Proof.
  intros Hr Hv Hk.
  set (g := (logs22.team_id r,
             CH.toDateTime (CH.toStartOfInterval_minute 10 (logs22.timestamp r)),
             logs22.service_name r, (k, if CH.length v >? 256 then "" else v))).
  assert (Hg : In g (map fst (count_by_key rollup_group_eq_dec (flat_map rollup_groups block)))).
  { apply count_by_key_groups, rollup_groups_In. exists r, k, v. auto. }
  apply in_map_iff in Hg. destruct Hg as [[g' n] [E Hin]]. simpl in E. subst g'.
  exists (rollup_row json_other g n). split.
  - apply view_In. exists g, n. auto.
  - repeat split.
Qed.

Lemma every_row_has_a_pair (block : list logs22.row) row :
  In row (log_to_log_attributes json_other block) ->
  exists (r : logs22.row) k v, In r block /\ In (k, v) (logs22.attributes r) /\ CH.length k < 256
    /\ log_attributes.team_id row = logs22.team_id r
    /\ log_attributes.time_bucket row
       = CH.toDateTime (CH.toStartOfInterval_minute 10 (logs22.timestamp r))
    /\ log_attributes.service_name row = logs22.service_name r
    /\ log_attributes.attribute_key row = k
    /\ log_attributes.attribute_value row
       = CH.CAST_JSONExtract_Dynamic_String json_other
           (if CH.length v >? 256 then "" else v).
Proof.
  intros H. apply view_In in H. destruct H as [g [n [Hin ->]]].
  assert (Hg : In g (flat_map rollup_groups block)).
  { apply count_by_key_groups. apply in_map_iff. exists (g, n). auto. }
  apply rollup_groups_In in Hg. destruct Hg as [r [k [v [Hr [Hv [Hk ->]]]]]].
  exists r, k, v. repeat split; assumption.
Qed.

Lemma inserted_pair_has_a_row now block st w k v :
  In w block -> In (k, v) (logs22.attributes w) -> CH.length k < 256 ->
  exists row, In row (log_attributes_rows (insert_logs22 json_other now block st))
    /\ log_attributes.team_id row = logs22.team_id w
    /\ log_attributes.attribute_key row = k
    /\ log_attributes.attribute_value row
       = CH.CAST_JSONExtract_Dynamic_String json_other
           (if CH.length v >? 256 then "" else v).
Proof.
  intros Hw Hv Hk.
  destruct (@every_pair_has_a_row (map (logs22.materialize now) block)
              (logs22.materialize now w) k v) as [row [Hin [Ht [_ [_ [Hkey Hval]]]]]];
    [apply in_map, Hw|assumption|assumption|].
  exists row. rewrite insert_logs22_attributes. repeat split; try assumption.
  apply in_or_app. right. assumption.
Qed.

End ValueFacts.

(** C10: every row the view writes carries, as [attribute_value],
    [CAST(JSONExtract(v, 'Dynamic'), 'String')] of the guarded value [v] of a
    pair of an inserted record, and every pair with a key under 256 bytes has
    such a row; a value that is a JSON string of letters lands without its
    quotes, so not as the raw text, while the stored record keeps the map it
    was inserted with. *)
Theorem rollup_value_is_json_decoded json_other now block st :
  let rows := map (logs22.materialize now) block in
  let decoded v :=
    CH.CAST_JSONExtract_Dynamic_String json_other (if CH.length v >? 256 then "" else v) in
  (forall row, In row (log_to_log_attributes json_other rows) ->
     exists w k v, In w block /\ In (k, v) (logs22.attributes w) /\ CH.length k < 256
       /\ log_attributes.attribute_key row = k
       /\ log_attributes.attribute_value row = decoded v) /\
  (forall w k v, In w block -> In (k, v) (logs22.attributes w) -> CH.length k < 256 ->
     exists row, In row (log_attributes_rows (insert_logs22 json_other now block st))
       /\ log_attributes.team_id row = logs22.team_id w
       /\ log_attributes.attribute_key row = k
       /\ log_attributes.attribute_value row = decoded v) /\
  (forall b, Forall (fun c => CH.is_letter c = true) (list_ascii_of_string b) ->
     CH.length (quoted b) <= 256 ->
     decoded (quoted b) = b /\ decoded (quoted b) <> quoted b) /\
  (forall w, In w block ->
     exists r, In r (logs22_rows (insert_logs22 json_other now block st))
       /\ logs22.attributes r = logs22.attributes w
       /\ logs22.written r = w).
Proof.
  cbv zeta. repeat split.
  - intros row H. apply every_row_has_a_pair in H.
    destruct H as [r [k [v [Hr [Hv [Hk [_ [_ [_ [Hkey Hval]]]]]]]]]].
    apply in_map_iff in Hr. destruct Hr as [w [<- Hw]]. exists w, k, v. auto.
  - intros w k v. apply inserted_pair_has_a_row.
  - destruct (Z.gtb_spec (CH.length (quoted b)) 256) as [Hgt|_]; [lia|].
    unfold CH.CAST_JSONExtract_Dynamic_String.
    rewrite (@plain_string_literal_quoted b H). reflexivity.
  - destruct (Z.gtb_spec (CH.length (quoted b)) 256) as [Hgt|_]; [lia|].
    unfold CH.CAST_JSONExtract_Dynamic_String.
    rewrite (@plain_string_literal_quoted b H). intro E. symmetry in E.
    exact (@quoted_differs b E).
  - intros w Hw. exists (logs22.materialize now w). rewrite insert_logs22_rows.
    repeat split. apply in_or_app. right. apply in_map, Hw.
Qed.

Lemma rollup_value_is_json_decoded_witness :
  CH.CAST_JSONExtract_Dynamic_String sample_json_other
    (if CH.length (quoted "prod") >? 256 then "" else quoted "prod") = "prod".
Proof.
  refine (proj1 (proj1 (proj2 (proj2
            (@rollup_value_is_json_decoded sample_json_other 5 [] empty))) "prod" _ _)).
  - repeat constructor.
  - vm_compute. discriminate.
Defined.

(** ** Length guards of the roll-up *)

Section GuardFacts.

Variable json_other : string -> string.
Variable null_as_default : bool.






End GuardFacts.




(** ** The ASSUME constraint *)

Lemma not_null_Some (V : Type) nad (d : V) m m' :
  kafka_logs_avro_mv.not_null nad d m = Some m' ->
  m' = map (fun kv => (fst kv, match snd kv with Some v => v | None => d end)) m.
Proof.
  revert m'. induction m as [|[k [v|]] rest IH]; simpl; intros m' H.
  - congruence.
  - destruct (kafka_logs_avro_mv.not_null nad d rest) as [l|]; simpl in H; [|discriminate].
    inversion H. rewrite <- (IH l eq_refl). reflexivity.
  - destruct nad; [|discriminate].
    destruct (kafka_logs_avro_mv.not_null true d rest) as [l|]; simpl in H; [|discriminate].
    inversion H. rewrite <- (IH l eq_refl). reflexivity.
Qed.

(** C9, as the schema has it: the equality is an ASSUME constraint, which no
    insert evaluates: every row of an inserted block is stored, whatever its
    columns; the Kafka view copies [service_name] and [attributes_map_str]
    from the payload (a NULL value becoming the default), so the stored record
    satisfies the equality exactly when the payload does. *)
Theorem assume_constraint_is_not_enforced json_other null_as_default :
  (forall now block st w, In w block ->
     In (logs22.materialize now w) (logs22_rows (insert_logs22 json_other now block st))) /\
  (forall m w,
     kafka_logs_avro_mv.to_logs22 null_as_default (kafka_logs_avro_mv.select m) = Some w ->
     let payload := kafka_logs_avro.value m in
     let copied :=
       map (fun kv => (fst kv, match snd kv with Some v => v | None => "" end))
         (kafka_logs_avro.attributes_map_str payload) in
     logs22.service_name w = kafka_logs_avro.service_name payload /\
     logs22.attributes_map_str w = copied /\
     (logs22.assume_service_name_attr w = true <->
      CH.mapElement copied "service.name__str" = kafka_logs_avro.service_name payload)) /\
  (forall now ms block st,
     kafka_logs_avro_mv.block_to_logs22 null_as_default ms = Some block ->
     logs22_rows (kafka_consume json_other null_as_default now ms st)
     = logs22_rows st ++ map (logs22.materialize now) block) /\
  map (fun c => (fst (fst c), snd (fst c))) logs22.constraints
  = [("assume_service_name_attr", ASSUME)] /\
  (forall w, passes_constraints w = true).
Proof.
  split; [|split; [|split; [|split; [reflexivity|exact passes_constraints_always]]]].
  - intros now block st w Hw. rewrite insert_logs22_rows.
    apply in_or_app. right. apply in_map, Hw.
  - intros m w H. cbv zeta. unfold kafka_logs_avro_mv.to_logs22 in H.
    destruct (kafka_logs_avro_mv.not_null _ _ (kafka_logs_avro.attributes _));
      [|discriminate].
    destruct (kafka_logs_avro_mv.not_null _ _ (kafka_logs_avro.attributes_map_str _))
      as [copied|] eqn:E; [|discriminate].
    destruct (kafka_logs_avro_mv.not_null null_as_default 0%float _); [|discriminate].
    destruct (kafka_logs_avro_mv.not_null null_as_default 0 _); [|discriminate].
    inversion H. apply not_null_Some in E. subst copied.
    unfold logs22.assume_service_name_attr. simpl.
    split; [reflexivity|]. split; [reflexivity|]. apply String.eqb_eq.
  - intros now ms block st H. unfold kafka_consume. rewrite H. apply insert_logs22_rows.
Qed.

Lemma assume_constraint_is_not_enforced_witness :
  logs22_rows
    (kafka_consume sample_json_other true 5
       [sample_message [("team_id", "2")] "api" [("service.name__str", Some "api")]] empty)
  = [logs22.materialize 5 (sample_log 2 "T1" "api" [] [("service.name__str", "api")])].
Proof.
  refine (proj1 (proj2 (proj2 (@assume_constraint_is_not_enforced sample_json_other true)))
            5 [sample_message [("team_id", "2")] "api" [("service.name__str", Some "api")]]
            [sample_log 2 "T1" "api" [] [("service.name__str", "api")]] empty _).
  reflexivity.
Defined.

(** C9 as claimed fails: a message whose payload names the service but
    carries no such attribute is stored, and its row breaks the equality. *)
Lemma stored_row_breaks_the_assumed_equality :
  map (fun r : logs22.row => logs22.assume_service_name_attr r)
    (logs22_rows
       (kafka_consume sample_json_other true 5
          [sample_message [("team_id", "2")] "api" []] empty))
  = [false].
Proof. vm_compute. reflexivity. Qed.

(** ** Duplicate delivery *)

Section ReplacingRuns.

Variables (R K : Type) (key : R -> K).
Variable K_eq_dec : forall a b : K, {a = b} + {a <> b}.

Abbreviation same' := (same_key key K_eq_dec).
Abbreviation merge' := (replacing_merge key K_eq_dec).

Lemma same_key_ext x y : key x = key y -> forall z, same' z x = same' z y.
Proof. intros E z. unfold same_key. rewrite E. reflexivity. Qed.

Lemma same_key_ext_l x y : key x = key y -> forall z, same' x z = same' y z.
Proof. intros E z. unfold same_key. rewrite E. reflexivity. Qed.

Lemma filter_twice (A : Type) (f : A -> bool) l : filter f (filter f l) = filter f l.
Proof.
  induction l as [|x rest IH]; simpl; [reflexivity|].
  destruct (f x) eqn:E; simpl; rewrite ?E, IH; reflexivity.
Qed.

(** rows delivered again and again under one key leave no trace but the last *)
Lemma replacing_merge_run rows run y :
  (forall z, In z run -> key z = key y) ->
  merge' (rows ++ run ++ [y]) = filter (fun z => negb (same' z y)) (merge' rows) ++ [y].
Proof.
  intros Hrun. rewrite app_assoc, replacing_merge_last. f_equal.
  induction run as [|z run' IH] using rev_ind.
  - rewrite app_nil_r. reflexivity.
  - assert (Hz : key z = key y) by (apply Hrun, in_or_app; right; left; reflexivity).
    rewrite app_assoc, replacing_merge_last, filter_app. simpl.
    assert (Hzz : same' z y = true) by (apply same_key_true, Hz).
    rewrite Hzz. simpl. rewrite app_nil_r.
    rewrite (filter_ext (fun z0 => negb (same' z0 z)) (fun z0 => negb (same' z0 y)))
      by (intros a; rewrite (same_key_ext Hz); reflexivity).
    rewrite filter_twice. apply IH.
    intros z0 Hz0. apply Hrun, in_or_app. left. assumption.
Qed.

(** what is merged in front of a run of rows *)
Lemma replacing_merge_app rows run :
  merge' (rows ++ run)
  = filter (fun y => negb (existsb (same' y) run)) (merge' rows) ++ merge' run.
Proof.
  induction rows as [|y rest IH]; simpl; [reflexivity|].
  rewrite existsb_app.
  destruct (existsb (same' y) rest) eqn:E; simpl; [assumption|].
  destruct (existsb (same' y) run); simpl; [assumption|]. rewrite IH. reflexivity.
Qed.

Lemma existsb_same_keys y xs ys :
  map key xs = map key ys -> existsb (same' y) xs = existsb (same' y) ys.
Proof.
  revert ys. induction xs as [|x xs IH]; intros [|z ys] H; try discriminate;
    [reflexivity|].
  inversion H as [[Hx Hxs]]. simpl. rewrite (same_key_ext Hx), (IH ys Hxs). reflexivity.
Qed.

Lemma existsb_pointwise (A : Type) (f g : A -> bool) l :
  (forall a, f a = g a) -> existsb f l = existsb g l.
Proof.
  intros H. induction l as [|a rest IH]; simpl; [reflexivity|]. rewrite H, IH. reflexivity.
Qed.

(** the merge looks at the keys only *)
Lemma replacing_merge_respects (V : Type) (view : R -> V) (key_of : V -> K) l1 l2 :
  (forall r, key r = key_of (view r)) ->
  map view l1 = map view l2 -> map view (merge' l1) = map view (merge' l2).
Proof.
  intros Hkey. revert l2. induction l1 as [|x xs IH]; intros [|z ys] H; try discriminate;
    [reflexivity|].
  inversion H as [[Hx Hxs]]. simpl.
  assert (Hk : key x = key z) by (rewrite !Hkey, Hx; reflexivity).
  assert (Hks : map key xs = map key ys).
  { rewrite (map_ext key (fun r => key_of (view r)) Hkey xs),
      (map_ext key (fun r => key_of (view r)) Hkey ys), <- !(map_map view key_of), Hxs.
    reflexivity. }
  rewrite (existsb_pointwise _ _ xs (same_key_ext_l Hk)), (existsb_same_keys _ _ _ Hks).
  destruct (existsb (same' z) ys); simpl; [auto|]. rewrite Hx, (IH ys Hxs). reflexivity.
Qed.

(** a run merged behind its own copy leaves what the one run leaves *)
Lemma replacing_merge_replay (V : Type) (view : R -> V) (key_of : V -> K) rows run run' :
  (forall r, key r = key_of (view r)) ->
  map view run = map view run' ->
  map view (merge' ((rows ++ run) ++ run')) = map view (merge' (rows ++ run)).
Proof.
  intros Hkey Hrun.
  assert (Hks : map key run = map key run').
  { rewrite (map_ext key (fun r => key_of (view r)) Hkey run),
      (map_ext key (fun r => key_of (view r)) Hkey run'), <- !(map_map view key_of), Hrun.
    reflexivity. }
  rewrite (replacing_merge_app (rows ++ run) run'), (replacing_merge_app rows run).
  rewrite filter_app, !map_app.
  rewrite (@filter_none _ (fun y => negb (existsb (same' y) run')) (merge' run)).
  - rewrite (filter_ext _ (fun y => negb (existsb (same' y) run)))
      by (intros y; rewrite (existsb_same_keys y _ _ Hks); reflexivity).
    rewrite filter_twice. simpl. rewrite app_nil_r. f_equal.
    symmetry. apply (@replacing_merge_respects V view key_of run run' Hkey Hrun).
  - intros y Hy. apply replacing_merge_In in Hy.
    rewrite <- (existsb_same_keys y _ _ Hks).
    apply negb_false_iff, existsb_exists. exists y. split; [assumption|].
    apply same_key_true. reflexivity.
Qed.

End ReplacingRuns.

Lemma map_filter_respects (A B : Type) (view : A -> B) (P : A -> bool) (P' : B -> bool) l1 l2 :
  (forall a, P a = P' (view a)) ->
  map view l1 = map view l2 ->
  map view (filter P l1) = map view (filter P l2).
Proof.
  intros HP. revert l2. induction l1 as [|a rest IH]; intros [|b rest2] H; simpl in *;
    try discriminate; [reflexivity|].
  inversion H as [[Hab Hrest]]. rewrite !HP, Hab.
  destruct (P' (view b)); simpl; rewrite ?Hab; [f_equal|]; auto.
Qed.

Section DeliveryFacts.

Variable json_other : string -> string.

Lemma deliver_rows nows w st :
  logs22_rows (deliver json_other nows w st)
  = logs22_rows st ++ map (fun now => logs22.materialize now w) nows.
Proof.
  revert st. induction nows as [|n later IH]; intros st; simpl.
  - rewrite app_nil_r. reflexivity.
  - rewrite IH, insert_logs22_rows. simpl. rewrite <- app_assoc. reflexivity.
Qed.

Lemma deliver_layout nows w st p :
  projection_aggregate_counts st = Some p ->
  projection_aggregate_counts (deliver json_other nows w st)
  = Some (p ++ map (fun now => (logs22.aggregate_key (logs22.materialize now w), 1)) nows).
Proof.
  revert st p. induction nows as [|n later IH]; intros st p H; simpl.
  - rewrite app_nil_r. assumption.
  - rewrite (IH _ (p ++ [(logs22.aggregate_key (logs22.materialize n w), 1)])).
    + rewrite <- app_assoc. reflexivity.
    + rewrite insert_logs22_layout, H. reflexivity.
Qed.

Lemma materialize_key now now' w :
  logs22.sorting_key (logs22.materialize now w)
  = logs22.sorting_key (logs22.materialize now' w).
Proof. reflexivity. Qed.

Lemma stored_columns_materialize now now' w :
  stored_columns (logs22.materialize now w) = stored_columns (logs22.materialize now' w).
Proof. reflexivity. Qed.

(** after the collapse, many deliveries leave the rows one delivery leaves,
    up to the wall-clock column of the survivor *)
Lemma merged_deliveries rows nows now w :
  nows <> [] ->
  exists last,
    replacing_merge logs22.sorting_key logs22.sorting_key_eq_dec
      (rows ++ map (fun n => logs22.materialize n w) nows)
    = filter (fun z => negb (same_key logs22.sorting_key logs22.sorting_key_eq_dec z
                                  (logs22.materialize now w)))
        (replacing_merge logs22.sorting_key logs22.sorting_key_eq_dec rows)
      ++ [logs22.materialize last w].
Proof.
  intros H. destruct (exists_last H) as [run [last ->]]. exists last.
  rewrite map_app. simpl. rewrite replacing_merge_run.
  - reflexivity.
  - intros z Hz. apply in_map_iff in Hz. destruct Hz as [n [<- _]]. reflexivity.
Qed.

Lemma trace_layout_respects rows1 rows2 :
  map stored_columns rows1 = map stored_columns rows2 ->
  projection_trace_span rows1 = projection_trace_span rows2.
Proof.
  intros H. unfold projection_trace_span.
  assert (Hk : map logs22.trace_span_key rows1 = map logs22.trace_span_key rows2).
  { apply (f_equal (map (fun c : logs22.columns * CH.DateTime =>
                           (logs22.trace_id (fst c), logs22.timestamp (fst c))))) in H.
    rewrite !map_map in H. exact H. }
  assert (Hl : List.length rows1 = List.length rows2).
  { apply (f_equal (@List.length _)) in H. rewrite !length_map in H. exact H. }
  rewrite Hk, Hl. reflexivity.
Qed.

Lemma fetch_respects rows1 rows2 offset :
  map stored_columns rows1 = map stored_columns rows2 ->
  map stored_columns (fetch rows1 offset) = map stored_columns (fetch rows2 offset).
Proof.
  intros H. unfold fetch.
  pose proof (nth_error_map stored_columns offset rows1) as H1.
  pose proof (nth_error_map stored_columns offset rows2) as H2.
  rewrite H in H1. rewrite H1 in H2.
  destruct (nth_error rows1 offset), (nth_error rows2 offset); simpl in *;
    congruence.
Qed.

Lemma fetch_all_respects rows1 rows2 (entries : list (logs22.trace_span_key_t * nat)) :
  map stored_columns rows1 = map stored_columns rows2 ->
  map stored_columns (flat_map (fun e => fetch rows1 (snd e)) entries)
  = map stored_columns (flat_map (fun e => fetch rows2 (snd e)) entries).
Proof.
  intros H. induction entries as [|e es IH]; simpl; [reflexivity|].
  rewrite !map_app, IH, (fetch_respects _ _ _ H). reflexivity.
Qed.

Lemma getByTrace_respects team trace st1 st2 :
  map stored_columns (logs22_rows st1) = map stored_columns (logs22_rows st2) ->
  map stored_columns (getByTrace team trace st1)
  = map stored_columns (getByTrace team trace st2).
Proof.
  intros H. unfold getByTrace. rewrite (trace_layout_respects _ _ H).
  apply map_filter_respects with (P' := fun c => logs22.team_id (fst c) =? team);
    [reflexivity|].
  apply fetch_all_respects, H.
Qed.

Lemma counts_from_scan_respects team range g rows1 rows2 :
  map stored_columns rows1 = map stored_columns rows2 ->
  counts_from_scan team range g rows1 = counts_from_scan team range g rows2.
Proof.
  intros H. unfold counts_from_scan. f_equal.
  apply (f_equal (map (fun c : logs22.columns * CH.DateTime =>
     ((logs22.team_id (fst c), snd c, CH.toStartOfMinute (logs22.timestamp (fst c)),
       logs22.service_name (fst c), logs22.severity_text (fst c),
       logs22.resource_attributes (fst c), logs22.resource_id (fst c)), 1)))) in H.
  rewrite !map_map in H. exact H.
Qed.

(** rows of one sorting key lie in one partition, so a merge can reach them *)
Lemma same_key_same_partition (a b : logs22.row) :
  logs22.sorting_key a = logs22.sorting_key b ->
  logs22.partition_key a = logs22.partition_key b.
Proof.
  unfold logs22.sorting_key, logs22.partition_key. intros H. inversion H. congruence.
Qed.

Lemma merge_logs22_one_survivor st r :
  In r (logs22_rows st) ->
  List.length (with_key_of r (logs22_rows (merge_logs22 st))) = 1%nat.
Proof. intros H. apply one_survivor, H. Qed.

Lemma merge_logs22_rows st :
  logs22_rows (merge_logs22 st)
  = replacing_merge logs22.sorting_key logs22.sorting_key_eq_dec (logs22_rows st).
Proof. reflexivity. Qed.

Lemma merge_logs22_idempotent st : merge_logs22 (merge_logs22 st) = merge_logs22 st.
Proof.
  unfold merge_logs22, merge_logs22_with. simpl. f_equal.
  - apply replacing_merge_idempotent.
  - destruct (projection_aggregate_counts st); simpl; [|reflexivity].
    rewrite sum_by_key_idempotent. reflexivity.
Qed.

Lemma merge_logs22_layout k st :
  layout_counter k (projection_aggregate_counts (merge_logs22 st))
  = layout_counter k (projection_aggregate_counts st).
Proof.
  simpl. destruct (projection_aggregate_counts st); simpl; [|reflexivity].
  apply total_sum_by_key.
Qed.

(** a whole block delivered again changes nothing but [created_at] *)
Lemma block_replay now now' block st :
  map stored_columns
    (logs22_rows (merge_logs22
       (insert_logs22 json_other now' block (insert_logs22 json_other now block st))))
  = map stored_columns
      (logs22_rows (merge_logs22 (insert_logs22 json_other now block st))).
Proof.
  rewrite !merge_logs22_rows, !insert_logs22_rows.
  apply (@replacing_merge_replay _ _ logs22.sorting_key logs22.sorting_key_eq_dec _
           stored_columns
           (fun c => (logs22.team_id (fst c), snd c, logs22.service_name (fst c),
                      logs22.resource_attributes (fst c), logs22.severity_text (fst c),
                      logs22.timestamp (fst c), logs22.uuid (fst c),
                      logs22.trace_id (fst c), logs22.span_id (fst c)))).
  - intros r. reflexivity.
  - rewrite !map_map. reflexivity.
Qed.

Lemma plain_total_run (K : Type) (dec : forall a b : K, {a = b} + {a <> b})
    (A : Type) (k0 k : K) (l : list A) :
  plain_total dec k (map (fun _ => (k0, 1)) l)
  = if dec k0 k then Z.of_nat (List.length l) else 0.
Proof.
  induction l as [|a rest IH]; simpl; [destruct (dec k0 k); reflexivity|].
  rewrite IH. destruct (dec k0 k); lia.
Qed.

End DeliveryFacts.

(** C1, as the schema has it: a record delivered one or more times, with
    whatever is stored already, leaves after the merge-collapse exactly one row
    with its sorting key; the rows, hence getByTrace and any count made by
    scanning them, are those a single delivery leaves, in every column but
    [created_at]; merging again changes nothing, and so does delivering a
    whole block again.  In any store the collapse
    leaves one row per sorting key that was there, and rows of one sorting
    key share their partition.  The coarse aggregate layout
    is merged on its own (deduplicate_merge_projection_mode = 'ignore'): its
    counter for the record goes up by one per delivery and the collapse does
    not take that back. *)
Theorem duplicate_delivery_collapses json_other nows now w st :
  nows <> [] ->
  let once := merge_logs22 (insert_logs22 json_other now [w] st) in
  let many := merge_logs22 (deliver json_other nows w st) in
  List.length (with_key_of (logs22.materialize now w) (logs22_rows many)) = 1%nat /\
  map stored_columns (logs22_rows many) = map stored_columns (logs22_rows once) /\
  (forall team trace,
     map stored_columns (getByTrace team trace many)
     = map stored_columns (getByTrace team trace once)) /\
  (forall team range g,
     counts_from_scan team range g (logs22_rows many)
     = counts_from_scan team range g (logs22_rows once)) /\
  merge_logs22 many = many /\
  (forall now' block,
     map stored_columns
       (logs22_rows (merge_logs22
          (insert_logs22 json_other now' block (insert_logs22 json_other now block st))))
     = map stored_columns
         (logs22_rows (merge_logs22 (insert_logs22 json_other now block st)))) /\
  (forall st' r, In r (logs22_rows st') ->
     List.length (with_key_of r (logs22_rows (merge_logs22 st'))) = 1%nat) /\
  (forall st', merge_logs22 (merge_logs22 st') = merge_logs22 st') /\
  (forall a b : logs22.row,
     logs22.sorting_key a = logs22.sorting_key b ->
     logs22.partition_key a = logs22.partition_key b) /\
  (forall k p, projection_aggregate_counts st = Some p ->
     layout_counter k (projection_aggregate_counts many)
     = CH.wrap_UInt64
         (total logs22.aggregate_key_eq_dec k p
          + if logs22.aggregate_key_eq_dec
                 (logs22.aggregate_key (logs22.materialize now w)) k
            then Z.of_nat (List.length nows) else 0)).
Proof.
  intros Hnows. cbv zeta.
  assert (Hrows : map stored_columns
                    (logs22_rows (merge_logs22 (deliver json_other nows w st)))
                  = map stored_columns
                      (logs22_rows (merge_logs22 (insert_logs22 json_other now [w] st)))).
  { rewrite !merge_logs22_rows, deliver_rows, insert_logs22_rows. simpl map at 3.
    destruct (merged_deliveries (logs22_rows st) now w Hnows) as [last ->].
    rewrite (replacing_merge_last logs22.sorting_key logs22.sorting_key_eq_dec).
    rewrite !map_app. reflexivity. }
  repeat match goal with |- _ /\ _ => split end;
    [|exact Hrows| | |
     |intros now' block; apply block_replay
     |exact merge_logs22_one_survivor|exact merge_logs22_idempotent
     |exact same_key_same_partition|].
  - rewrite merge_logs22_rows, deliver_rows.
    destruct (exists_last Hnows) as [run [last E]].
    unfold with_key_of.
    rewrite (filter_ext _ _ (@same_key_ext_l _ _ logs22.sorting_key
                               logs22.sorting_key_eq_dec _ _ (materialize_key now last w))).
    apply one_survivor. apply in_or_app. right. apply in_map_iff.
    exists last. split; [reflexivity|]. rewrite E. apply in_or_app. right. left. reflexivity.
  - intros team trace. apply getByTrace_respects, Hrows.
  - intros team range g. apply counts_from_scan_respects, Hrows.
  - apply merge_logs22_idempotent.
  - intros k p Hp. rewrite merge_logs22_layout, (deliver_layout json_other nows w st Hp).
    simpl. rewrite total_app. f_equal. f_equal.
    apply (plain_total_run logs22.aggregate_key_eq_dec
             (logs22.aggregate_key (logs22.materialize now w)) k nows).
Qed.

Lemma duplicate_delivery_collapses_witness :
  map stored_columns
    (getByTrace 1 "T1"
       (merge_logs22 (deliver sample_json_other [5; 6; 7] (sample_log 1 "T1" "api" [] []) empty)))
  = map stored_columns
      (getByTrace 1 "T1"
         (merge_logs22
            (insert_logs22 sample_json_other 5 [sample_log 1 "T1" "api" [] []] empty))).
Proof.
  refine (proj1 (proj2 (proj2
            (@duplicate_delivery_collapses sample_json_other [5; 6; 7] 5
               (sample_log 1 "T1" "api" [] []) empty _))) 1 "T1").
  discriminate.
Defined.

(** the scenario of the replayed batch: three records, one of trace T1,
    delivered twice; after the collapse getByTrace finds one record, and the
    coarse layout counts two *)
Example duplicate_batch_replay :
  let batch := [sample_log 1 "T1" "api" [] []; sample_log 1 "T2" "api" [] [];
                sample_log 1 "T3" "web" [] []] in
  let st := merge_logs22
              (insert_logs22 sample_json_other 9 batch
                 (insert_logs22 sample_json_other 5 batch empty)) in
  map stored_columns (getByTrace 1 "T1" st)
  = [stored_columns (logs22.materialize 5 (sample_log 1 "T1" "api" [] []))] /\
  List.length (logs22_rows st) = 3%nat /\
  aggregateCounts 1 (0, 4000000000) by_service st
  = [((Some "api", None, None, None), 4); ((Some "web", None, None, None), 2)].
Proof. repeat split. Qed.

(** with [rebuild] in place of [ignore] the layout would follow the collapse *)
Example rebuild_mode_counts_survivors :
  aggregateCounts 1 (0, 4000000000) by_service
    (merge_logs22_with rebuild
       (deliver sample_json_other [5; 6] (sample_log 1 "T1" "api" [] []) empty))
  = [((Some "api", None, None, None), 1)].
Proof. vm_compute. reflexivity. Qed.

(** C1 as claimed fails for aggregateCounts: after the collapse, which leaves
    one row, it answers 2 for a record delivered twice and 1 for the record
    delivered once; and the record getByTrace returns carries the wall-clock
    time of its last delivery. *)
Lemma aggregateCounts_counts_every_delivery :
  aggregateCounts 1 (0, 4000000000) by_service
    (merge_logs22 (deliver sample_json_other [5; 6] (sample_log 1 "T1" "api" [] []) empty))
  = [((Some "api", None, None, None), 2)] /\
  aggregateCounts 1 (0, 4000000000) by_service
    (merge_logs22 (deliver sample_json_other [5] (sample_log 1 "T1" "api" [] []) empty))
  = [((Some "api", None, None, None), 1)] /\
  List.length
    (logs22_rows
       (merge_logs22 (deliver sample_json_other [5; 6] (sample_log 1 "T1" "api" [] []) empty)))
  = 1%nat /\
  map logs22.created_at
    (getByTrace 1 "T1"
       (merge_logs22 (deliver sample_json_other [5; 6] (sample_log 1 "T1" "api" [] []) empty)))
  = [6] /\
  map logs22.created_at
    (getByTrace 1 "T1"
       (merge_logs22 (deliver sample_json_other [5] (sample_log 1 "T1" "api" [] []) empty)))
  = [5].
Proof. repeat split; vm_compute; reflexivity. Qed.

(** ** The trace-ordered layout *)

Section SortingFacts.

Variable A : Type.
Variable leb : A -> A -> bool.

Abbreviation insert1 := (insert_sorted leb).
Abbreviation sorted := (StronglySorted (fun a b => leb a b = true)).

Lemma insert_sorted_In x y l : In y (insert1 x l) <-> y = x \/ In y l.
Proof.
  induction l as [|z rest IH]; simpl; [intuition|].
  destruct (leb x z); simpl; [intuition|]. rewrite IH. intuition.
Qed.

Lemma sort_by_In y l : In y (sort_by leb l) <-> In y l.
Proof.
  induction l as [|x rest IH]; simpl; [tauto|].
  rewrite insert_sorted_In, IH. intuition.
Qed.

(** a sort by a key is the sort of the keys *)
Lemma map_sort_by (B : Type) (g : A -> B) (lebB : B -> B -> bool) l :
  (forall a b, lebB (g a) (g b) = leb a b) ->
  map g (sort_by leb l) = sort_by lebB (map g l).
Proof.
  intros H. induction l as [|x rest IH]; simpl; [reflexivity|]. rewrite <- IH.
  generalize (sort_by leb rest). intros l.
  induction l as [|z l' IHl]; simpl; [reflexivity|].
  rewrite H. destruct (leb x z); simpl; [reflexivity|]. rewrite IHl. reflexivity.
Qed.

Hypothesis leb_total : forall a b, leb a b = false -> leb b a = true.
Hypothesis leb_trans : forall a b c, leb a b = true -> leb b c = true -> leb a c = true.

Lemma insert_sorted_sorted x l : sorted l -> sorted (insert1 x l).
Proof.
  induction 1 as [|y rest Hrest IH Hy]; simpl; [repeat constructor|].
  destruct (leb x y) eqn:E.
  - constructor; [constructor; assumption|].
    constructor; [assumption|]. rewrite Forall_forall in *.
    intros z Hz. apply leb_trans with y; auto.
  - constructor; [assumption|]. rewrite Forall_forall in *.
    intros z Hz. apply insert_sorted_In in Hz. destruct Hz as [->|Hz]; auto.
Qed.

Lemma sort_by_sorted l : sorted (sort_by leb l).
Proof.
  induction l as [|x rest IH]; simpl; [constructor|]. apply insert_sorted_sorted, IH.
Qed.

Lemma insert_sorted_front x l :
  (forall z, In z l -> leb x z = true) -> insert1 x l = x :: l.
Proof.
  destruct l as [|y rest]; simpl; [reflexivity|]. intros H.
  rewrite (H y (or_introl eq_refl)). reflexivity.
Qed.

(** a selection commutes with the sort *)
Lemma filter_insert_sorted (P : A -> bool) x l :
  sorted l ->
  filter P (insert1 x l) = if P x then insert1 x (filter P l) else filter P l.
Proof.
  induction 1 as [|y rest Hrest IH Hy]; simpl; [destruct (P x); reflexivity|].
  destruct (leb x y) eqn:E; simpl.
  - destruct (P x) eqn:Px; [|reflexivity].
    destruct (P y) eqn:Py; simpl; [rewrite E; reflexivity|].
    rewrite insert_sorted_front; [reflexivity|].
    intros z Hz. apply filter_In in Hz. destruct Hz as [Hz _].
    rewrite Forall_forall in Hy. apply leb_trans with y; auto.
  - rewrite IH. destruct (P y) eqn:Py, (P x) eqn:Px; simpl; rewrite ?E; reflexivity.
Qed.

Lemma filter_sort_by (P : A -> bool) l :
  filter P (sort_by leb l) = sort_by leb (filter P l).
Proof.
  induction l as [|x rest IH]; simpl; [reflexivity|].
  rewrite filter_insert_sorted by apply sort_by_sorted.
  destruct (P x); simpl; rewrite IH; reflexivity.
Qed.

End SortingFacts.

Lemma combine_map_l (A B C : Type) (f : A -> C) (l : list A) (l' : list B) :
  combine (map f l) l' = map (fun p => (f (fst p), snd p)) (combine l l').
Proof.
  revert l'. induction l as [|a rest IH]; intros [|b rest']; simpl; try reflexivity.
  rewrite IH. reflexivity.
Qed.

Lemma combine_seq_fst (A : Type) (l : list A) start :
  map fst (combine l (seq start (List.length l))) = l.
Proof.
  revert start. induction l as [|a rest IH]; intros start; simpl; [reflexivity|].
  rewrite IH. reflexivity.
Qed.

Lemma combine_seq_nth (A : Type) (l : list A) start a i :
  In (a, i) (combine l (seq start (List.length l))) ->
  (start <= i)%nat /\ nth_error l (i - start) = Some a.
Proof.
  revert start. induction l as [|b rest IH]; intros start; simpl; [tauto|].
  intros [E|H].
  - inversion E; subst. rewrite Nat.sub_diag. split; [lia|reflexivity].
  - destruct (IH (S start) H) as [Hle Hnth]. split; [lia|].
    replace (i - start)%nat with (S (i - S start)) by lia. exact Hnth.
Qed.

Lemma filter_swap (A : Type) (f g : A -> bool) l :
  filter f (filter g l) = filter g (filter f l).
Proof.
  induction l as [|x rest IH]; simpl; [reflexivity|].
  destruct (g x) eqn:G, (f x) eqn:F; simpl; rewrite ?G, ?F, IH; reflexivity.
Qed.

Lemma trace_span_row_leb_total a b :
  trace_span_row_leb a b = false -> trace_span_row_leb b a = true.
Proof.
  unfold trace_span_row_leb, trace_span_leb. simpl.
  rewrite (String.compare_antisym (logs22.trace_id b) (logs22.trace_id a)).
  destruct (String.compare (logs22.trace_id a) (logs22.trace_id b)); simpl;
    try discriminate; [|reflexivity].
  intros H. apply Z.leb_gt in H. apply Z.leb_le. lia.
Qed.

Lemma trace_span_row_leb_trans a b c :
  trace_span_row_leb a b = true -> trace_span_row_leb b c = true ->
  trace_span_row_leb a c = true.
Proof.
  unfold trace_span_row_leb, trace_span_leb. simpl.
  destruct (String.compare (logs22.trace_id a) (logs22.trace_id b)) eqn:Eab;
    try discriminate;
    destruct (String.compare (logs22.trace_id b) (logs22.trace_id c)) eqn:Ebc;
    try discriminate; intros Hab Hbc.
  - apply String_as_OT.cmp_eq in Eab. apply String_as_OT.cmp_eq in Ebc.
    rewrite Eab, Ebc.
    pose proof (proj2 (String_as_OT.cmp_eq (logs22.trace_id c) (logs22.trace_id c)) eq_refl)
      as Hcc.
    unfold String_as_OT.cmp in Hcc. rewrite Hcc.
    apply Z.leb_le in Hab. apply Z.leb_le in Hbc. apply Z.leb_le. lia.
  - apply String_as_OT.cmp_eq in Eab. rewrite Eab.
    unfold String_as_OT.cmp in *. rewrite Ebc. reflexivity.
  - apply String_as_OT.cmp_eq in Ebc. rewrite <- Ebc.
    unfold String_as_OT.cmp in *. rewrite Eab. reflexivity.
  - apply String_as_OT.cmp_lt in Eab. apply String_as_OT.cmp_lt in Ebc.
    pose proof (proj2 (String_as_OT.cmp_lt _ _) (String_as_OT.lt_trans _ _ _ Eab Ebc)) as Hac.
    unfold String_as_OT.cmp in Hac. rewrite Hac. reflexivity.
Qed.

Lemma flat_map_map (A B C : Type) (f : B -> list C) (g : A -> B) l :
  flat_map f (map g l) = flat_map (fun x => f (g x)) l.
Proof. induction l as [|x rest IH]; simpl; [reflexivity|]. rewrite IH. reflexivity. Qed.

Lemma fetch_located (rows : list logs22.row) (l : list (logs22.row * nat)) :
  (forall p, In p l -> nth_error rows (snd p) = Some (fst p)) ->
  flat_map (fun p => fetch rows (snd p)) l = map fst l.
Proof.
  induction l as [|p rest IH]; simpl; intros H; [reflexivity|].
  unfold fetch at 1. rewrite (H p (or_introl eq_refl)). simpl. f_equal.
  apply IH. intros q Hq. apply H. right. assumption.
Qed.

(** getByTrace without offsets: the rows of the trace and the tenant, in the
    order of the layout *)
Lemma getByTrace_sorted_rows team trace st :
  getByTrace team trace st
  = filter (fun r : logs22.row => logs22.team_id r =? team)
      (filter (fun r : logs22.row => String.eqb (logs22.trace_id r) trace)
         (sort_by trace_span_row_leb (logs22_rows st))).
Proof.
  unfold getByTrace, projection_trace_span. f_equal.
  set (rows := logs22_rows st).
  set (located := combine rows (seq 0 (List.length rows))).
  set (entry := fun p : logs22.row * nat => (logs22.trace_span_key (fst p), snd p)).
  set (leb_located := fun a b : logs22.row * nat => trace_span_leb (entry a) (entry b)).
  rewrite combine_map_l. fold located. fold entry.
  rewrite <- (@map_sort_by _ leb_located _ entry trace_span_leb located)
    by reflexivity.
  rewrite filter_map_swap, flat_map_map, fetch_located.
  - rewrite <- filter_map_swap
      with (f := fun r : logs22.row => String.eqb (logs22.trace_id r) trace).
    rewrite (@map_sort_by _ leb_located _ (@fst logs22.row nat) trace_span_row_leb located)
      by reflexivity.
    unfold located. rewrite combine_seq_fst. reflexivity.
  - intros [r i] Hp. apply filter_In in Hp. destruct Hp as [Hp _].
    apply sort_by_In in Hp. apply combine_seq_nth in Hp. simpl.
    rewrite Nat.sub_0_r in Hp. tauto.
Qed.

(** ** Tenants *)

Lemma filter_implied (A : Type) (f g : A -> bool) l :
  (forall x, f x = true -> g x = true) -> filter f (filter g l) = filter f l.
Proof.
  intros H. induction l as [|x rest IH]; simpl; [reflexivity|].
  destruct (g x) eqn:G; simpl; rewrite IH; [reflexivity|].
  destruct (f x) eqn:F; [|reflexivity]. rewrite (H x F) in G. discriminate.
Qed.

Lemma filter_flat_map (A B : Type) (f : A -> list B) (P : A -> bool) (Q : B -> bool) l :
  (forall a b, In b (f a) -> Q b = P a) ->
  filter Q (flat_map f l) = flat_map f (filter P l).
Proof.
  intros H. induction l as [|a rest IH]; simpl; [reflexivity|].
  rewrite filter_app, IH. destruct (P a) eqn:E; simpl.
  - f_equal. rewrite (filter_ext_in Q (fun _ => true)).
    + clear. induction (f a) as [|b r IHr]; simpl; congruence.
    + intros b Hb. rewrite (H a b Hb). assumption.
  - rewrite (@filter_none _ Q (f a)); [reflexivity|].
    intros b Hb. rewrite (H a b Hb). assumption.
Qed.

Section TenantFacts.

Variable json_other : string -> string.
Variable team : CH.Int32.

Abbreviation of_team := (fun r : logs22.row => logs22.team_id r =? team).
Abbreviation key_of_team :=
  (fun k : logs22.aggregate_key_t => let '(t, _, _, _, _, _, _) := k in t =? team).
Abbreviation group_of_team :=
  (fun g : rollup_group_t => let '(t, _, _, _) := g in t =? team).
Abbreviation attribute_of_team := (fun r => log_attributes.team_id r =? team).

Lemma getByTrace_team trace st r :
  In r (getByTrace team trace st) -> logs22.team_id r = team.
Proof.
  unfold getByTrace. intros H. apply filter_In in H. apply Z.eqb_eq. exact (proj2 H).
Qed.

Lemma searchByText_team range text st r :
  In r (searchByText team range text st) -> logs22.team_id r = team.
Proof.
  unfold searchByText. intros H. apply filter_In in H. destruct H as [_ H].
  apply andb_true_iff in H. destruct H as [H _].
  apply andb_true_iff in H. destruct H as [H _]. apply Z.eqb_eq, H.
Qed.

Lemma getByTrace_only_team trace st :
  getByTrace team trace (only_team team st) = getByTrace team trace st.
Proof.
  rewrite !getByTrace_sorted_rows. simpl.
  rewrite <- (@filter_sort_by _ trace_span_row_leb
                trace_span_row_leb_total trace_span_row_leb_trans).
  rewrite (filter_swap (fun r : logs22.row => String.eqb (logs22.trace_id r) trace)).
  apply filter_twice.
Qed.

Lemma searchByText_only_team range text st :
  searchByText team range text (only_team team st) = searchByText team range text st.
Proof.
  unfold searchByText. simpl. apply filter_implied.
  intros r H. apply andb_true_iff in H. destruct H as [H _].
  apply andb_true_iff in H. exact (proj1 H).
Qed.

Lemma listAttributes_only_team range service st :
  listAttributes team range service (only_team team st)
  = listAttributes team range service st.
Proof.
  unfold listAttributes. simpl. rewrite filter_implied; [reflexivity|].
  intros r H. apply andb_true_iff in H. destruct H as [H _].
  apply andb_true_iff in H. tauto.
Qed.

Lemma aggregate_matches_team range k :
  aggregate_matches team range k = true -> key_of_team k = true.
Proof.
  destruct k as [[[[[[t b] m] s] sv] ra] rid]. simpl. intros H.
  apply andb_true_iff in H. exact (proj1 H).
Qed.

Lemma counts_from_only_team range g layout :
  counts_from team range g (filter (fun kc => key_of_team (fst kc)) layout)
  = counts_from team range g layout.
Proof.
  unfold counts_from. rewrite filter_implied; [reflexivity|].
  intros [k c]. simpl. apply aggregate_matches_team.
Qed.

Lemma aggregateCounts_only_team range g st :
  aggregateCounts team range g (only_team team st) = aggregateCounts team range g st.
Proof.
  unfold aggregateCounts. simpl. destruct (projection_aggregate_counts st); simpl.
  - apply counts_from_only_team.
  - unfold counts_from_scan.
    rewrite <- (counts_from_only_team range g
                  (map (fun r : logs22.row => (logs22.aggregate_key r, 1)) (logs22_rows st))).
    f_equal. rewrite filter_map_swap. reflexivity.
Qed.

Lemma build_aggregate_counts_team rows :
  filter (fun kc => key_of_team (fst kc)) (build_aggregate_counts rows)
  = build_aggregate_counts (filter of_team rows).
Proof.
  unfold build_aggregate_counts.
  rewrite (filter_count_by_key logs22.aggregate_key_eq_dec key_of_team).
  f_equal. rewrite filter_map_swap. reflexivity.
Qed.

Lemma view_team (rows : list logs22.row) :
  filter attribute_of_team (log_to_log_attributes json_other rows)
  = log_to_log_attributes json_other (filter of_team rows).
Proof.
  unfold log_to_log_attributes. rewrite filter_map_swap.
  rewrite (filter_ext _ (fun gc => group_of_team (fst gc)))
    by (intros [[[[t b] s] a] n]; reflexivity).
  rewrite (filter_count_by_key rollup_group_eq_dec group_of_team). do 2 f_equal.
  apply filter_flat_map. intros r g Hg. unfold rollup_groups in Hg.
  apply in_map_iff in Hg. destruct Hg as [a [<- _]]. reflexivity.
Qed.

Lemma only_team_insert now block st :
  only_team team (insert_logs22 json_other now block st)
  = insert_logs22 json_other now
      (filter (fun w => logs22.team_id w =? team) block) (only_team team st).
Proof.
  unfold insert_logs22. rewrite !block_passes_constraints. unfold only_team. simpl.
  assert (Hrows : filter of_team (map (logs22.materialize now) block)
                  = map (logs22.materialize now)
                      (filter (fun w => logs22.team_id w =? team) block)).
  { rewrite filter_map_swap. reflexivity. }
  f_equal.
  - rewrite filter_app, Hrows. reflexivity.
  - destruct (projection_aggregate_counts st); simpl; [|reflexivity].
    rewrite filter_app. do 2 f_equal.
    rewrite <- Hrows. apply build_aggregate_counts_team.
  - rewrite filter_app, view_team, Hrows. reflexivity.
Qed.

Lemma only_team_merge st :
  only_team team (merge_logs22 st) = merge_logs22 (only_team team st).
Proof.
  unfold merge_logs22, merge_logs22_with, only_team. simpl. f_equal.
  - apply replacing_merge_filter. intros a b H.
    unfold logs22.sorting_key in H. inversion H. congruence.
  - destruct (projection_aggregate_counts st); simpl; [|reflexivity]. f_equal.
    apply (filter_sum_by_key logs22.aggregate_key_eq_dec key_of_team).
Qed.

Lemma only_team_merge_attributes st :
  only_team team (merge_log_attributes st) = merge_log_attributes (only_team team st).
Proof.
  unfold merge_log_attributes, only_team. simpl. f_equal.
  rewrite filter_map_swap.
  rewrite (filter_ext _ (fun kc : log_attributes.sorting_key_t * CH.UInt64 =>
                           (let '(t, _, _, _, _) := fst kc in t =? team)))
    by (intros [[[[[t s] b] ak] av] n]; reflexivity).
  rewrite (filter_sum_by_key log_attributes.sorting_key_eq_dec
             (fun k : log_attributes.sorting_key_t =>
                let '(t, _, _, _, _) := k in t =? team)).
  do 2 f_equal. rewrite filter_map_swap. reflexivity.
Qed.

End TenantFacts.

(** C2, as the schema has it: with the identifier of a tenant, getByTrace and
    searchByText return records of that tenant only, and each of the four
    operations answers what it answers on the rows of that tenant alone; what
    other tenants insert and what merges do leaves the part of a tenant as it
    is.
    The sorting key of [logs22], the key of the coarse aggregate layout, the
    GROUP BY key of the roll-up view and the sorting key of [log_attributes]
    carry [team_id]. *)
Theorem queries_are_scoped_by_team json_other team st :
  (forall trace r, In r (getByTrace team trace st) -> logs22.team_id r = team) /\
  (forall range text r,
     In r (searchByText team range text st) -> logs22.team_id r = team) /\
  (forall trace, getByTrace team trace st = getByTrace team trace (only_team team st)) /\
  (forall range text,
     searchByText team range text st = searchByText team range text (only_team team st)) /\
  (forall range service,
     listAttributes team range service st
     = listAttributes team range service (only_team team st)) /\
  (forall range g,
     aggregateCounts team range g st = aggregateCounts team range g (only_team team st)) /\
  (forall now block,
     only_team team (insert_logs22 json_other now block st)
     = insert_logs22 json_other now
         (filter (fun w => logs22.team_id w =? team) block) (only_team team st)) /\
  only_team team (merge_logs22 st) = merge_logs22 (only_team team st) /\
  only_team team (merge_log_attributes st) = merge_log_attributes (only_team team st) /\
  (forall a b : logs22.row,
     logs22.sorting_key a = logs22.sorting_key b -> logs22.team_id a = logs22.team_id b) /\
  (forall a b : logs22.row,
     logs22.aggregate_key a = logs22.aggregate_key b ->
     logs22.team_id a = logs22.team_id b) /\
  (forall (r : logs22.row) g, In g (rollup_groups r) -> fst (fst (fst g)) = logs22.team_id r) /\
  (forall a b : log_attributes.row,
     log_attributes.sorting_key a = log_attributes.sorting_key b ->
     log_attributes.team_id a = log_attributes.team_id b).
Proof.
  repeat match goal with |- _ /\ _ => split end.
  - intros trace r. apply getByTrace_team.
  - intros range text r. apply searchByText_team.
  - intros trace. symmetry. apply getByTrace_only_team.
  - intros range text. symmetry. apply searchByText_only_team.
  - intros range service. symmetry. apply listAttributes_only_team.
  - intros range g. symmetry. apply aggregateCounts_only_team.
  - intros now block. apply only_team_insert.
  - apply only_team_merge.
  - apply only_team_merge_attributes.
  - intros a b H. unfold logs22.sorting_key in H. inversion H. congruence.
  - intros a b H. unfold logs22.aggregate_key in H. inversion H. congruence.
  - intros r g H. unfold rollup_groups in H. apply in_map_iff in H.
    destruct H as [a [<- _]]. reflexivity.
  - intros a b H. unfold log_attributes.sorting_key in H. inversion H. congruence.
Qed.

Lemma queries_are_scoped_by_team_witness :
  logs22.team_id (logs22.materialize 5 (sample_log 1 "T1" "api" [] [])) = 1.
Proof.
  refine (proj1 (@queries_are_scoped_by_team sample_json_other 1
            (insert_logs22 sample_json_other 5
               [sample_log 1 "T1" "api" [] []; sample_log 2 "T1" "web" [] []] empty))
            "T1" (logs22.materialize 5 (sample_log 1 "T1" "api" [] [])) _).
  vm_compute. left. reflexivity.
Defined.

(** the scenario of the cross-tenant query: what tenant 1 ingested is not
    listed for tenant 2 *)
Example listAttributes_of_another_tenant :
  listAttributes 1 (0, 4000000000) None
    (insert_logs22 sample_json_other 5
       [sample_log 1 "T1" "api" [("env", quoted "prod")] []] empty)
  = [("env", "prod", 1)] /\
  listAttributes 2 (0, 4000000000) None
    (insert_logs22 sample_json_other 5
       [sample_log 1 "T1" "api" [("env", quoted "prod")] []] empty)
  = [].
Proof. split; vm_compute; reflexivity. Qed.

(** C2 as claimed fails for one key: the trace-ordered layout is keyed by
    [trace_id] and [timestamp] alone, so records of two tenants share a key
    in it and stand side by side. *)
Lemma trace_layout_key_has_no_team :
  let a := logs22.materialize 5 (sample_log 1 "T1" "api" [] []) in
  let b := logs22.materialize 5 (sample_log 2 "T1" "web" [] []) in
  logs22.trace_span_key a = logs22.trace_span_key b /\
  logs22.team_id a = 1 /\ logs22.team_id b = 2 /\
  projection_trace_span [a; b]
  = [(("T1", 1700000000123456), 0%nat); (("T1", 1700000000123456), 1%nat)].
Proof. repeat split. Qed.

(** * Further properties of the schema *)

(** ** Decimal team ids *)

(** X1: [toInt32OrZero] reads back the decimal text of an integer: the text
    parses to the number, the result is the number when it fits 32 signed
    bits and 0 when it does not; so a message whose first [team_id] header
    is the decimal text of a tenant id is given that tenant. *)
Theorem toInt32OrZero_reads_decimal (n : Z) :
  CH.readIntText (decimal n) = Some n /\
  CH.toInt32OrZero (decimal n)
  = (if (CH.Int32_min <=? n) && (n <=? CH.Int32_max) then n else 0) /\
  (forall m,
     first_header "team_id" (kafka_logs_avro._headers m) = Some (decimal n) ->
     CH.Int32_min <= n <= CH.Int32_max ->
     kafka_logs_avro_mv.team_id (kafka_logs_avro_mv.select m) = n).
Proof.
  split; [apply readIntText_decimal|]. split.
  - unfold CH.toInt32OrZero. rewrite readIntText_decimal. reflexivity.
  - intros m Hm Hn. exact (@select_team_decimal m n Hm Hn).
Qed.

(** ** The two minute columns *)

Lemma day_of_minute t :
  0 <= t -> Z.quot t CH.scale6 / 86400 = t / 60000000 / 1440.
Proof.
  intros Ht. rewrite Z.quot_div_nonneg by (unfold CH.scale6; lia).
  unfold CH.scale6. rewrite !Z.div_div by lia. reflexivity.
Qed.

(** X2: for a stored row whose event time a [DateTime] holds, the ALIAS
    column [time_minute] equals the MATERIALIZED column [time_bucket], so the
    two time columns of [projection_aggregate_counts] are one; among such
    rows, a later [timestamp] never has an earlier [time_bucket], and rows
    of one [time_bucket] lie in one partition. *)
Theorem time_minute_is_time_bucket json_other null_as_default st (r : logs22.row) :
  reachable json_other null_as_default st ->
  In r (logs22_rows st) ->
  CH.DateTime_range (logs22.timestamp r) ->
  logs22.time_minute r = logs22.time_bucket r /\
  logs22.aggregate_key r
  = (logs22.team_id r, logs22.time_bucket r, logs22.time_bucket r, logs22.service_name r,
     logs22.severity_text r, logs22.resource_attributes r, logs22.resource_id r) /\
  (forall r' : logs22.row,
     In r' (logs22_rows st) -> CH.DateTime_range (logs22.timestamp r') ->
     (logs22.timestamp r <= logs22.timestamp r' ->
      logs22.time_bucket r <= logs22.time_bucket r') /\
     (logs22.time_bucket r = logs22.time_bucket r' ->
      logs22.partition_key r = logs22.partition_key r')).
Proof.
  intros Hst Hr Ht.
  pose proof (reachable_materialized Hst) as Hall.
  rewrite Forall_forall in Hall.
  assert (Hb : forall x : logs22.row, In x (logs22_rows st) ->
                 CH.DateTime_range (logs22.timestamp x) ->
                 logs22.time_bucket x = 60 * (logs22.timestamp x / 60000000)
                 /\ logs22.time_bucket x = logs22.time_minute x
                 /\ logs22.time_bucket x = CH.toStartOfMinute (logs22.timestamp x)).
  { intros x Hx Hxt. destruct (Hall x Hx) as (now & w & ->).
    unfold logs22.time_minute.
    cbn [logs22.materialize logs22.time_bucket logs22.written logs22.timestamp] in *.
    pose proof (minute_floor_in_range Hxt) as E. split; [exact E|].
    split; [reflexivity|]. rewrite E. unfold CH.toStartOfMinute, CH.toStartOfInterval_minute, CH.scale6. cbv zeta.
    destruct Hxt as [H0 _].
    rewrite Z.quot_div_nonneg by lia.
    rewrite Z.div_div by lia. change (1000000 * (60 * 1)) with 60000000. lia. }
  destruct (Hb r Hr Ht) as (E1 & Em & E2).
  split; [symmetry; exact Em|].
  split; [unfold logs22.aggregate_key; rewrite <- E2; reflexivity|].
  intros r' Hr' Ht'. destruct (Hb r' Hr' Ht') as [E1' _]. split.
  - intros Hle. rewrite E1, E1'.
    assert (logs22.timestamp r / 60000000 <= logs22.timestamp r' / 60000000)
      by (apply Z.div_le_mono; lia).
    lia.
  - intros Heq. unfold logs22.partition_key, CH.toDate.
    rewrite !day_of_minute by (destruct Ht, Ht'; assumption).
    rewrite E1, E1' in Heq.
    assert (logs22.timestamp r / 60000000 = logs22.timestamp r' / 60000000) by lia.
    congruence.
Qed.

Lemma time_minute_is_time_bucket_witness :
  logs22.time_minute (logs22.materialize 5 (sample_log 1 "T1" "api" [] []))
  = logs22.time_bucket (logs22.materialize 5 (sample_log 1 "T1" "api" [] [])).
Proof.
  refine (proj1 (@time_minute_is_time_bucket sample_json_other true
                   (insert_logs22 sample_json_other 5 [sample_log 1 "T1" "api" [] []] empty)
                   (logs22.materialize 5 (sample_log 1 "T1" "api" [] [])) _ _ _)).
  - apply reachable_step with (st := empty); [apply reachable_empty | apply step_insert].
  - simpl. left. reflexivity.
  - unfold CH.DateTime_range, CH.scale6. simpl. lia.
Defined.

(** ** Roll-up rows and the records they count *)

Lemma ten_minute_day t :
  (CH.toStartOfInterval_minute 10 t / 86400) mod 2 ^ 16 = CH.toDate t.
Proof.
  unfold CH.toStartOfInterval_minute, CH.toDate. cbv zeta.
  set (s := Z.quot t CH.scale6). change (60 * 10) with 600.
  f_equal. change 86400 with (600 * 144).
  rewrite <- !Z.div_div by lia. rewrite Z.div_mul by lia. reflexivity.
Qed.

Lemma ten_minute_of_minute t :
  CH.DateTime_range t ->
  CH.toDateTime (CH.toStartOfInterval_minute 10 t)
  = 600 * (CH.toDateTime (CH.toStartOfInterval_minute 1 t) / 600).
Proof.
  intros Ht. rewrite (minute_floor_in_range Ht), (ten_minute_in_range Ht).
  f_equal. change 600 with (60 * 10).
  rewrite <- Z.div_div by lia. rewrite (Z.mul_comm 60), Z.div_mul by lia.
  rewrite Z.div_div by lia. reflexivity.
Qed.

(** X3: every row the view [log_to_log_attributes] writes comes from a
    record of the block with the same tenant and service, and carries the
    10-minute start of the record's [timestamp] as a [DateTime].  When the
    record's event time is one a [DateTime] holds (1970 to 2106), the row
    lies in the partition of [log_attributes] that has the day of the
    record's partition in [logs22], its bucket contains the record's
    [timestamp], and the bucket is the record's [time_bucket] floored to 600
    seconds. *)
Theorem rollup_rows_follow_their_record json_other (block : list logs22.row) row :
  In row (log_to_log_attributes json_other block) ->
  exists r : logs22.row,
    In r block /\
    log_attributes.team_id row = logs22.team_id r /\
    log_attributes.service_name row = logs22.service_name r /\
    log_attributes.time_bucket row
    = CH.toDateTime (CH.toStartOfInterval_minute 10 (logs22.timestamp r)) /\
    (CH.DateTime_range (logs22.timestamp r) ->
     log_attributes.partition_key row = logs22.partition_key r /\
     log_attributes.time_bucket row * CH.scale6 <= logs22.timestamp r
       < (log_attributes.time_bucket row + 600) * CH.scale6 /\
     (materialized r ->
      log_attributes.time_bucket row = 600 * (logs22.time_bucket r / 600) /\
      log_attributes.time_bucket row <= logs22.time_bucket r
        < log_attributes.time_bucket row + 600)).
Proof.
  intros Hrow.
  destruct (@every_row_has_a_pair json_other block row Hrow)
    as (r & k & v & Hr & _ & _ & Ht & Hb & Hs & _).
  exists r. split; [exact Hr|]. split; [exact Ht|]. split; [exact Hs|].
  split; [exact Hb|]. intros Hrange. split; [|split].
  - unfold log_attributes.partition_key, logs22.partition_key.
    rewrite Hb, (ten_minute_in_range Hrange).
    destruct Hrange as [H0 _]. rewrite <- (ten_minute_floor H0). apply ten_minute_day.
  - rewrite Hb, (ten_minute_in_range Hrange). apply ten_minute_bounds.
  - intros (now & w & ->).
    cbn [logs22.materialize logs22.time_bucket logs22.written logs22.timestamp] in *.
    rewrite Hb, (ten_minute_of_minute Hrange).
    set (b := CH.toDateTime (CH.toStartOfInterval_minute 1 (logs22.timestamp w))).
    pose proof (Z.div_mod b 600 ltac:(lia)).
    pose proof (Z.mod_pos_bound b 600 ltac:(lia)).
    split; [reflexivity | lia].
Qed.

Lemma rollup_rows_follow_their_record_witness :
  exists r : logs22.row,
    In r [logs22.materialize 5 (sample_log 1 "T1" "api" [("env", quoted "prod")] [])] /\
    log_attributes.partition_key
      {| log_attributes.team_id := 1; log_attributes.time_bucket := 1699999800;
         log_attributes.service_name := "api"; log_attributes.attribute_key := "env";
         log_attributes.attribute_value := "prod"; log_attributes.attribute_count := 1 |}
    = logs22.partition_key r.
Proof.
  destruct (@rollup_rows_follow_their_record sample_json_other
              [logs22.materialize 5 (sample_log 1 "T1" "api" [("env", quoted "prod")] [])]
              {| log_attributes.team_id := 1; log_attributes.time_bucket := 1699999800;
                 log_attributes.service_name := "api"; log_attributes.attribute_key := "env";
                 log_attributes.attribute_value := "prod";
                 log_attributes.attribute_count := 1 |})
    as (r & Hr & _ & _ & _ & Hp).
  - vm_compute. left. reflexivity.
  - exists r. split; [exact Hr|]. apply Hp.
    destruct Hr as [<-|[]]. unfold CH.DateTime_range, CH.scale6. simpl. lia.
Defined.

(** ** Size of what the roll-up view writes *)

Section AggregatingSizes.

Variable K : Type.
Variable K_eq_dec : forall a b : K, {a = b} + {a <> b}.

Lemma add_to_group_length k c g :
  (List.length (add_to_group K_eq_dec k c g) <= S (List.length g))%nat.
Proof.
  induction g as [|[k' c'] rest IH]; simpl; [lia|].
  destruct (K_eq_dec k' k); simpl; lia.
Qed.

Lemma fold_length (rows acc : list (K * CH.UInt64)) :
  (List.length (fold_left (fun groups kc => add_to_group K_eq_dec (fst kc) (snd kc) groups)
                  rows acc)
   <= List.length acc + List.length rows)%nat.
Proof.
  revert acc. induction rows as [|[k c] rest IH]; intros acc; simpl; [lia|].
  specialize (IH (add_to_group K_eq_dec k c acc)).
  pose proof (add_to_group_length k c acc). lia.
Qed.

Lemma sum_by_key_length rows :
  (List.length (sum_by_key K_eq_dec rows) <= List.length rows)%nat.
Proof. unfold sum_by_key. apply (fold_length rows []). Qed.

Lemma count_by_key_length keys :
  (List.length (count_by_key K_eq_dec keys) <= List.length keys)%nat.
Proof.
  unfold count_by_key. etransitivity; [apply sum_by_key_length|].
  rewrite length_map. lia.
Qed.

End AggregatingSizes.

Lemma rollup_groups_length (block : list logs22.row) :
  (List.length (flat_map rollup_groups block)
   <= List.length (flat_map (fun r : logs22.row => logs22.attributes r) block))%nat.
Proof.
  induction block as [|r rest IH]; simpl; [lia|].
  rewrite !length_app. unfold rollup_groups at 1, rollup_attributes.
  rewrite !length_map.
  pose proof (filter_length_le (fun kv : string * string => CH.length (fst kv) <? 256)
                (logs22.attributes r)).
  lia.
Qed.

(** X4: the view writes nothing exactly when no attribute key of the
    block is shorter than 256 bytes; every pair it groups by has a key of at
    most 255 bytes and a value of at most 256; and it writes at most one row
    per attribute pair of the block. *)
Theorem rollup_view_output_is_bounded json_other (block : list logs22.row) :
  (log_to_log_attributes json_other block = [] <->
   forall (r : logs22.row) k v,
     In r block -> In (k, v) (logs22.attributes r) -> 256 <= CH.length k) /\
  (forall (r : logs22.row) g, In g (rollup_groups r) ->
     0 <= CH.length (fst (snd g)) < 256 /\ 0 <= CH.length (snd (snd g)) <= 256) /\
  (List.length (log_to_log_attributes json_other block)
   <= List.length (flat_map (fun r : logs22.row => logs22.attributes r) block))%nat.
Proof.
  split; [|split].
  - split.
    + intros Hnil r k v Hr Hkv.
      destruct (Z.lt_ge_cases (CH.length k) 256) as [Hk|Hk]; [|exact Hk].
      destruct (@every_pair_has_a_row json_other block r k v Hr Hkv Hk) as (row & Hrow & _).
      rewrite Hnil in Hrow. destruct Hrow.
    + intros Hall. destruct (log_to_log_attributes json_other block) as [|row rest] eqn:E;
        [reflexivity|].
      destruct (@every_row_has_a_pair json_other block row) as (r & k & v & Hr & Hkv & Hk & _).
      { rewrite E. left. reflexivity. }
      specialize (Hall r k v Hr Hkv). lia.
  - intros r g Hg. unfold rollup_groups in Hg. apply in_map_iff in Hg.
    destruct Hg as [[k v'] [<- Ha]]. apply rollup_attributes_In in Ha.
    destruct Ha as (v & _ & Hk & ->). cbn [fst snd]. unfold CH.length in *.
    destruct (Z.gtb_spec (Z.of_nat (String.length v)) 256); simpl; lia.
  - unfold log_to_log_attributes. rewrite length_map.
    etransitivity; [apply count_by_key_length | apply rollup_groups_length].
Qed.

(** ** The merge of the roll-up table *)

Section AggregatingRows.

Variable K : Type.
Variable K_eq_dec : forall a b : K, {a = b} + {a <> b}.

Lemma plain_total_absent k (g : list (K * CH.UInt64)) :
  ~ In k (map fst g) -> plain_total K_eq_dec k g = 0.
Proof.
  induction g as [|[k' c'] rest IH]; simpl; intros H; [reflexivity|].
  destruct (K_eq_dec k' k) as [E|E]; [exfalso; apply H; left; exact E|].
  rewrite IH; [reflexivity|]. intros Hin. apply H. right. exact Hin.
Qed.

Lemma plain_total_NoDup k c (g : list (K * CH.UInt64)) :
  NoDup (map fst g) -> In (k, c) g -> plain_total K_eq_dec k g = c.
Proof.
  induction g as [|[k' c'] rest IH]; simpl; intros Hnd Hin; [destruct Hin|].
  inversion Hnd as [|x l Hx Hrest]; subst.
  destruct Hin as [E|Hin].
  - inversion E; subst. destruct (K_eq_dec k k) as [_|N]; [|congruence].
    rewrite plain_total_absent by exact Hx. lia.
  - destruct (K_eq_dec k' k) as [E|E].
    + exfalso. apply Hx. subst k'. apply in_map_iff. exists (k, c). auto.
    + rewrite (IH Hrest Hin). lia.
Qed.

(** a merged row carries the sum of the rows of its key *)
Lemma sum_by_key_counter k c rows :
  In (k, c) (sum_by_key K_eq_dec rows) -> CH.wrap_UInt64 c = total K_eq_dec k rows.
Proof.
  intros Hin. rewrite <- (total_sum_by_key K_eq_dec k rows). unfold total.
  rewrite (@plain_total_NoDup k c _ (sum_by_key_NoDup K_eq_dec rows) Hin). reflexivity.
Qed.

(** rows that were merged already merge with new ones as the unmerged do *)
Lemma sum_by_key_app_merged l q :
  sum_by_key K_eq_dec (sum_by_key K_eq_dec l ++ q) = sum_by_key K_eq_dec (l ++ q).
Proof.
  unfold sum_by_key at 1 3. rewrite !fold_left_app. f_equal.
  apply (sum_by_key_idempotent K_eq_dec l).
Qed.

End AggregatingRows.

(** X5: the merge of [log_attributes] leaves one row per ORDER BY key,
    keeps every key and adds none, gives each row the sum (modulo 2^64) of
    the counts its key had, never makes the table longer, and changes
    nothing when run again. *)
Theorem merge_log_attributes_collapses st :
  let merged := log_attributes_rows (merge_log_attributes st) in
  NoDup (map log_attributes.sorting_key merged) /\
  (forall k, In k (map log_attributes.sorting_key merged)
             <-> In k (map log_attributes.sorting_key (log_attributes_rows st))) /\
  (forall row, In row merged ->
     CH.wrap_UInt64 (log_attributes.attribute_count row)
     = rollup_counter (log_attributes.sorting_key row) (log_attributes_rows st)) /\
  (List.length merged <= List.length (log_attributes_rows st))%nat /\
  merge_log_attributes (merge_log_attributes st) = merge_log_attributes st.
Proof.
  cbv zeta.
  set (pair := fun r => (log_attributes.sorting_key r, log_attributes.attribute_count r)).
  pose proof (merge_log_attributes_pairs st) as E. fold pair in E.
  assert (Ek : forall rows, map log_attributes.sorting_key rows = map fst (map pair rows)).
  { intros rows. rewrite map_map. reflexivity. }
  split; [|split; [|split; [|split]]].
  - rewrite Ek, E. apply sum_by_key_NoDup.
  - intros k. rewrite !Ek, E. apply sum_by_key_keys.
  - intros row Hrow. unfold rollup_counter. fold pair.
    apply sum_by_key_counter. rewrite <- E.
    apply (in_map pair) in Hrow. exact Hrow.
  - rewrite <- (length_map pair), E.
    etransitivity; [apply sum_by_key_length|]. rewrite length_map. lia.
  - unfold merge_log_attributes at 1. fold pair. rewrite E.
    rewrite sum_by_key_idempotent. reflexivity.
Qed.

(** ** Batching *)

Section BatchFacts.

Variable json_other : string -> string.

Lemma rollup_groups_now now now' (block : list logs22.columns) :
  flat_map rollup_groups (map (logs22.materialize now) block)
  = flat_map rollup_groups (map (logs22.materialize now') block).
Proof.
  induction block as [|w rest IH]; simpl; [reflexivity|]. rewrite IH. reflexivity.
Qed.

Lemma increments_now k now now' (block : list logs22.columns) :
  increments json_other k (map (logs22.materialize now) block)
  = increments json_other k (map (logs22.materialize now') block).
Proof. unfold increments. rewrite (rollup_groups_now now now'). reflexivity. Qed.

Lemma increments_app k (b1 b2 : list logs22.row) :
  increments json_other k (b1 ++ b2)
  = increments json_other k b1 + increments json_other k b2.
Proof.
  unfold increments. rewrite flat_map_app, map_app, count_occ_app. lia.
Qed.

Lemma aggregate_keys_now now now' (block : list logs22.columns) :
  map logs22.aggregate_key (map (logs22.materialize now) block)
  = map logs22.aggregate_key (map (logs22.materialize now') block).
Proof. rewrite !map_map. reflexivity. Qed.

(** the counter of the coarse layout after an INSERT *)
Lemma insert_layout_counter a now block st :
  layout_counter a (projection_aggregate_counts (insert_logs22 json_other now block st))
  = match projection_aggregate_counts st with
    | Some p =>
        CH.wrap_UInt64
          (total logs22.aggregate_key_eq_dec a p
           + Z.of_nat (count_occ logs22.aggregate_key_eq_dec
                         (map logs22.aggregate_key (map (logs22.materialize now) block)) a))
    | None => 0
    end.
Proof.
  rewrite insert_logs22_layout.
  destruct (projection_aggregate_counts st) as [p|]; [|reflexivity].
  cbn [option_map layout_counter]. rewrite total_app.
  rewrite <- wrap_UInt64_add_r.
  change (CH.wrap_UInt64 (plain_total logs22.aggregate_key_eq_dec a
            (build_aggregate_counts (map (logs22.materialize now) block))))
    with (total logs22.aggregate_key_eq_dec a
            (build_aggregate_counts (map (logs22.materialize now) block))).
  unfold build_aggregate_counts. rewrite total_count_by_key.
  rewrite wrap_UInt64_add_r. reflexivity.
Qed.

Lemma stored_columns_now now now' (block : list logs22.columns) :
  map stored_columns (map (logs22.materialize now) block)
  = map stored_columns (map (logs22.materialize now') block).
Proof. rewrite !map_map. reflexivity. Qed.

End BatchFacts.

Lemma NoDup_map_ext (A B : Type) (f g : A -> B) l :
  (forall x, f x = g x) -> NoDup (map f l) -> NoDup (map g l).
Proof. intros H. rewrite (map_ext f g H). exact (fun N => N). Qed.

(** X6: for records of pairwise distinct sorting keys, which an INSERT
    stores as they are (a collapse of the block alone changes nothing), the
    counters of [log_attributes] and of [projection_aggregate_counts] do not
    depend on how the records are batched: one INSERT of two blocks
    together, two INSERTs, and the two INSERTs in the other order leave the
    same counter under every key; the stored rows of the split and of the
    whole differ in [created_at] at most. *)
Theorem counters_ignore_batching json_other now now1 now2 b1 b2 st k a :
  NoDup (map (fun w => logs22.sorting_key (logs22.materialize now w)) (b1 ++ b2)) ->
  let collapse := replacing_merge logs22.sorting_key logs22.sorting_key_eq_dec in
  let whole := insert_logs22 json_other now (b1 ++ b2) st in
  let split := insert_logs22 json_other now2 b2 (insert_logs22 json_other now1 b1 st) in
  let swapped := insert_logs22 json_other now1 b1 (insert_logs22 json_other now2 b2 st) in
  collapse (map (logs22.materialize now) (b1 ++ b2)) = map (logs22.materialize now) (b1 ++ b2) /\
  collapse (map (logs22.materialize now1) b1) = map (logs22.materialize now1) b1 /\
  collapse (map (logs22.materialize now2) b2) = map (logs22.materialize now2) b2 /\
  rollup_counter k (log_attributes_rows split) = rollup_counter k (log_attributes_rows whole) /\
  rollup_counter k (log_attributes_rows swapped)
  = rollup_counter k (log_attributes_rows whole) /\
  layout_counter a (projection_aggregate_counts split)
  = layout_counter a (projection_aggregate_counts whole) /\
  layout_counter a (projection_aggregate_counts swapped)
  = layout_counter a (projection_aggregate_counts whole) /\
  map stored_columns (logs22_rows split) = map stored_columns (logs22_rows whole).
Proof.
  intros Hkeys. cbv zeta.
  assert (Hwhole : NoDup (map logs22.sorting_key (map (logs22.materialize now) (b1 ++ b2))))
    by (rewrite map_map; exact Hkeys).
  assert (H1 : NoDup (map logs22.sorting_key (map (logs22.materialize now1) b1))).
  { rewrite map_map. rewrite map_app in Hkeys. apply NoDup_app_remove_r in Hkeys.
    revert Hkeys. apply NoDup_map_ext. intros w. apply materialize_key. }
  assert (H2 : NoDup (map logs22.sorting_key (map (logs22.materialize now2) b2))).
  { rewrite map_map. rewrite map_app in Hkeys. apply NoDup_app_remove_l in Hkeys.
    revert Hkeys. apply NoDup_map_ext. intros w. apply materialize_key. }
  split; [apply replacing_merge_fixed, Hwhole|].
  split; [apply replacing_merge_fixed, H1|].
  split; [apply replacing_merge_fixed, H2|].
  assert (Hi : increments json_other k (map (logs22.materialize now) (b1 ++ b2))
               = increments json_other k (map (logs22.materialize now1) b1)
                 + increments json_other k (map (logs22.materialize now2) b2)).
  { rewrite map_app, increments_app.
    rewrite (increments_now json_other k now now1), (increments_now json_other k now now2).
    reflexivity. }
  assert (Hc : Z.of_nat (count_occ logs22.aggregate_key_eq_dec
                  (map logs22.aggregate_key (map (logs22.materialize now) (b1 ++ b2))) a)
               = Z.of_nat (count_occ logs22.aggregate_key_eq_dec
                    (map logs22.aggregate_key (map (logs22.materialize now1) b1)) a)
                 + Z.of_nat (count_occ logs22.aggregate_key_eq_dec
                      (map logs22.aggregate_key (map (logs22.materialize now2) b2)) a)).
  { rewrite !map_app, count_occ_app.
    rewrite (aggregate_keys_now now now1 b1), (aggregate_keys_now now now2 b2). lia. }
  repeat match goal with |- _ /\ _ => split end.
  - rewrite !insert_counter, Hi, wrap_UInt64_add_l. f_equal. lia.
  - rewrite !insert_counter, Hi, wrap_UInt64_add_l. f_equal. lia.
  - rewrite (insert_layout_counter json_other a now2), (insert_layout_counter json_other a now).
    rewrite insert_logs22_layout.
    destruct (projection_aggregate_counts st) as [p|] eqn:Ep; [|reflexivity].
    cbn [option_map].
    pose proof (insert_layout_counter json_other a now1 b1 st) as E1.
    rewrite insert_logs22_layout, Ep in E1. cbn [option_map layout_counter] in E1.
    rewrite E1, Hc, wrap_UInt64_add_l. f_equal. lia.
  - rewrite (insert_layout_counter json_other a now1), (insert_layout_counter json_other a now).
    rewrite insert_logs22_layout.
    destruct (projection_aggregate_counts st) as [p|] eqn:Ep; [|reflexivity].
    cbn [option_map].
    pose proof (insert_layout_counter json_other a now2 b2 st) as E2.
    rewrite insert_logs22_layout, Ep in E2. cbn [option_map layout_counter] in E2.
    rewrite E2, Hc, wrap_UInt64_add_l. f_equal. lia.
  - rewrite !insert_logs22_rows, !map_app, <- app_assoc.
    rewrite (stored_columns_now now now1 b1), (stored_columns_now now now2 b2).
    reflexivity.
Qed.

Lemma counters_ignore_batching_witness :
  rollup_counter (1, "api", 1699999800, "env", "prod")
    (log_attributes_rows
       (insert_logs22 sample_json_other 6
          [sample_log 1 "T2" "api" [("env", quoted "prod")] []]
          (insert_logs22 sample_json_other 5
             [sample_log 1 "T1" "api" [("env", quoted "prod")] []] empty)))
  = rollup_counter (1, "api", 1699999800, "env", "prod")
      (log_attributes_rows
         (insert_logs22 sample_json_other 7
            ([sample_log 1 "T1" "api" [("env", quoted "prod")] []]
             ++ [sample_log 1 "T2" "api" [("env", quoted "prod")] []]) empty)).
Proof.
  refine (proj1 (proj2 (proj2 (proj2
            (@counters_ignore_batching sample_json_other 7 5 6
               [sample_log 1 "T1" "api" [("env", quoted "prod")] []]
               [sample_log 1 "T2" "api" [("env", quoted "prod")] []]
               empty (1, "api", 1699999800, "env", "prod")
               (logs22.aggregate_key
                  (logs22.materialize 5 (sample_log 1 "T1" "api" [] []))) _))))).
  constructor; [|constructor; [intros []|constructor]].
  intros [H|[]]. discriminate H.
Defined.

(** ** Survivors of the merge-collapse *)

Section ReplacingSurvivors.

Variables (R K : Type) (key : R -> K).
Variable K_eq_dec : forall a b : K, {a = b} + {a <> b}.

Lemma no_later_same_key r rows :
  existsb (same_key key K_eq_dec r) rows = false
  <-> forall r', In r' rows -> key r' <> key r.
Proof.
  split.
  - intros H r' Hr' E.
    assert (existsb (same_key key K_eq_dec r) rows = true) as Ht.
    { apply existsb_exists. exists r'. split; [exact Hr'|].
      apply same_key_true. symmetry. exact E. }
    congruence.
  - intros H. destruct (existsb (same_key key K_eq_dec r) rows) eqn:E; [|reflexivity].
    apply existsb_exists in E. destruct E as (r' & Hr' & Hs).
    apply same_key_true in Hs. exfalso. apply (H r' Hr'). symmetry. exact Hs.
Qed.

(** the rows a merge keeps: those that no later row of their key follows *)
Lemma replacing_merge_survivor r rows :
  In r (replacing_merge key K_eq_dec rows) <->
  exists before after,
    rows = before ++ r :: after /\ forall r', In r' after -> key r' <> key r.
Proof.
  split.
  - induction rows as [|x rest IH]; simpl; [intros []|].
    destruct (existsb (same_key key K_eq_dec x) rest) eqn:E.
    + intros H. destruct (IH H) as (before & after & -> & Hafter).
      exists (x :: before), after. split; [reflexivity | exact Hafter].
    + intros [<-|H].
      * exists [], rest. split; [reflexivity|]. apply no_later_same_key. exact E.
      * destruct (IH H) as (before & after & -> & Hafter).
        exists (x :: before), after. split; [reflexivity | exact Hafter].
  - intros (before & after & -> & Hafter). induction before as [|x rest IH]; simpl.
    + apply no_later_same_key in Hafter. rewrite Hafter. left. reflexivity.
    + destruct (existsb (same_key key K_eq_dec x) (rest ++ r :: after));
        [exact IH | right; exact IH].
Qed.

End ReplacingSurvivors.

(** X7: the merge-collapse of [logs22] keeps exactly the rows that no
    later row of the same ORDER BY key follows: of several rows with one key
    the last inserted survives.  Every key that was there is still there,
    once. *)
Theorem merge_keeps_the_last_row_of_a_key st (r : logs22.row) :
  (In r (logs22_rows (merge_logs22 st)) <->
   exists before after,
     logs22_rows st = before ++ r :: after /\
     forall r' : logs22.row, In r' after -> logs22.sorting_key r' <> logs22.sorting_key r) /\
  (forall k, In k (map logs22.sorting_key (logs22_rows (merge_logs22 st)))
             <-> In k (map logs22.sorting_key (logs22_rows st))) /\
  NoDup (map logs22.sorting_key (logs22_rows (merge_logs22 st))).
Proof.
  rewrite merge_logs22_rows. split; [|split].
  - apply replacing_merge_survivor.
  - intros k. apply replacing_merge_keys.
  - apply replacing_merge_NoDup.
Qed.

(** ** Payloads without NULL *)

Lemma not_null_no_null (V : Type) nad (d : V) m :
  no_null m ->
  exists m', kafka_logs_avro_mv.not_null nad d m = Some m' /\ nullable m' = m.
Proof.
  induction m as [|[k [v|]] rest IH]; intros H.
  - exists []. split; reflexivity.
  - inversion H as [|x l _ Hrest]; subst. destruct (IH Hrest) as (m' & E & N).
    exists ((k, v) :: m'). cbn [kafka_logs_avro_mv.not_null]. rewrite E.
    split; [reflexivity|]. unfold nullable in *. simpl. rewrite N. reflexivity.
  - inversion H as [|x l Hx _]; subst. exfalso. apply Hx. reflexivity.
Qed.

(** X8: a Kafka payload whose four Nullable maps hold no NULL is converted
    for [logs22] whatever is done with NULLs, and the converted row has the
    payload's maps, its fourteen other columns, and the tenant read from the
    headers. *)
Theorem payload_without_null_is_stored_as_sent nad (m : kafka_logs_avro.message) :
  no_null (kafka_logs_avro.attributes (kafka_logs_avro.value m)) ->
  no_null (kafka_logs_avro.attributes_map_str (kafka_logs_avro.value m)) ->
  no_null (kafka_logs_avro.attributes_map_float (kafka_logs_avro.value m)) ->
  no_null (kafka_logs_avro.attributes_map_datetime (kafka_logs_avro.value m)) ->
  exists w,
    kafka_logs_avro_mv.to_logs22 nad (kafka_logs_avro_mv.select m) = Some w /\
    nullable (logs22.attributes w)
    = kafka_logs_avro.attributes (kafka_logs_avro.value m) /\
    nullable (logs22.attributes_map_str w)
    = kafka_logs_avro.attributes_map_str (kafka_logs_avro.value m) /\
    nullable (logs22.attributes_map_float w)
    = kafka_logs_avro.attributes_map_float (kafka_logs_avro.value m) /\
    nullable (logs22.attributes_map_datetime w)
    = kafka_logs_avro.attributes_map_datetime (kafka_logs_avro.value m) /\
    (logs22.uuid w, logs22.trace_id w, logs22.span_id w, logs22.trace_flags w,
     logs22.timestamp w, logs22.observed_timestamp w, logs22.body w,
     logs22.severity_text w, logs22.severity_number w, logs22.service_name w,
     logs22.resource_attributes w, logs22.resource_id w,
     logs22.instrumentation_scope w, logs22.event_name w)
    = (let p := kafka_logs_avro.value m in
       (kafka_logs_avro.uuid p, kafka_logs_avro.trace_id p, kafka_logs_avro.span_id p,
        kafka_logs_avro.trace_flags p, kafka_logs_avro.timestamp p,
        kafka_logs_avro.observed_timestamp p, kafka_logs_avro.body p,
        kafka_logs_avro.severity_text p, kafka_logs_avro.severity_number p,
        kafka_logs_avro.service_name p, kafka_logs_avro.resource_attributes p,
        kafka_logs_avro.resource_id p, kafka_logs_avro.instrumentation_scope p,
        kafka_logs_avro.event_name p)) /\
    logs22.team_id w = kafka_logs_avro_mv.team_id (kafka_logs_avro_mv.select m).
Proof.
  intros Ha Hs Hf Hd.
  destruct (not_null_no_null nad "" Ha) as (a & Ea & Na).
  destruct (not_null_no_null nad "" Hs) as (s & Es & Ns).
  destruct (not_null_no_null nad 0%float Hf) as (f & Ef & Nf).
  destruct (not_null_no_null nad 0 Hd) as (d & Ed & Nd).
  unfold kafka_logs_avro_mv.to_logs22.
  cbn [kafka_logs_avro_mv.select kafka_logs_avro_mv.star].
  rewrite Ea, Es, Ef, Ed. eexists. split; [reflexivity|].
  cbn [logs22.attributes logs22.attributes_map_str logs22.attributes_map_float
       logs22.attributes_map_datetime].
  repeat match goal with |- _ /\ _ => split end; try assumption; reflexivity.
Qed.

Lemma payload_without_null_is_stored_as_sent_witness :
  exists w,
    kafka_logs_avro_mv.to_logs22 false
      (kafka_logs_avro_mv.select
         (sample_message [("team_id", "2")] "api" [("service.name__str", Some "api")]))
    = Some w /\
    logs22.attributes_map_str w = [("service.name__str", "api")].
Proof.
  destruct (@payload_without_null_is_stored_as_sent false
              (sample_message [("team_id", "2")] "api" [("service.name__str", Some "api")]))
    as (w & Hw & _ & Hs & _).
  - constructor.
  - constructor; [discriminate | constructor].
  - constructor.
  - constructor.
  - exists w. split; [exact Hw|].
    destruct (logs22.attributes_map_str w) as [|[k v] [|kv rest]]; try discriminate Hs.
    inversion Hs. reflexivity.
Defined.

(** ** Order and offsets of the trace layout *)

Section SortingPermutes.

Variable A : Type.
Variable leb : A -> A -> bool.

Lemma insert_sorted_Permutation x l : Permutation (insert_sorted leb x l) (x :: l).
Proof.
  induction l as [|y rest IH]; simpl; [apply Permutation_refl|].
  destruct (leb x y); [apply Permutation_refl|].
  apply Permutation_trans with (y :: x :: rest);
    [apply perm_skip, IH | apply perm_swap].
Qed.

Lemma sort_by_Permutation l : Permutation (sort_by leb l) l.
Proof.
  induction l as [|x rest IH]; simpl; [apply perm_nil|].
  apply Permutation_trans with (x :: sort_by leb rest);
    [apply insert_sorted_Permutation | apply perm_skip, IH].
Qed.

End SortingPermutes.

Lemma combine_seq_snd (A : Type) (l : list A) start :
  map snd (combine l (seq start (List.length l))) = seq start (List.length l).
Proof.
  revert start. induction l as [|a rest IH]; intros start; simpl; [reflexivity|].
  rewrite IH. reflexivity.
Qed.

Lemma combine_seq_In (A : Type) (l : list A) start a i :
  nth_error l i = Some a -> In (a, (start + i)%nat) (combine l (seq start (List.length l))).
Proof.
  revert start i. induction l as [|b rest IH]; intros start [|i]; simpl; try discriminate.
  - intros E. inversion E; subst. left. rewrite Nat.add_0_r. reflexivity.
  - intros E. right. replace (start + S i)%nat with (S start + i)%nat by lia.
    apply IH. exact E.
Qed.

Lemma trace_span_leb_total a b : trace_span_leb a b = false -> trace_span_leb b a = true.
Proof.
  unfold trace_span_leb.
  rewrite (String.compare_antisym (fst (fst b)) (fst (fst a))).
  destruct (String.compare (fst (fst a)) (fst (fst b))); simpl;
    try discriminate; [|reflexivity].
  intros H. apply Z.leb_gt in H. apply Z.leb_le. lia.
Qed.

Lemma trace_span_leb_trans a b c :
  trace_span_leb a b = true -> trace_span_leb b c = true -> trace_span_leb a c = true.
Proof.
  unfold trace_span_leb.
  destruct (String.compare (fst (fst a)) (fst (fst b))) eqn:Eab;
    try discriminate;
    destruct (String.compare (fst (fst b)) (fst (fst c))) eqn:Ebc;
    try discriminate; intros Hab Hbc.
  - apply String_as_OT.cmp_eq in Eab. apply String_as_OT.cmp_eq in Ebc.
    rewrite Eab, Ebc.
    pose proof (proj2 (String_as_OT.cmp_eq (fst (fst c)) (fst (fst c))) eq_refl) as Hcc.
    unfold String_as_OT.cmp in Hcc. rewrite Hcc.
    apply Z.leb_le in Hab. apply Z.leb_le in Hbc. apply Z.leb_le. lia.
  - apply String_as_OT.cmp_eq in Eab. rewrite Eab.
    unfold String_as_OT.cmp in *. rewrite Ebc. reflexivity.
  - apply String_as_OT.cmp_eq in Ebc. rewrite <- Ebc.
    unfold String_as_OT.cmp in *. rewrite Eab. reflexivity.
  - apply String_as_OT.cmp_lt in Eab. apply String_as_OT.cmp_lt in Ebc.
    pose proof (proj2 (String_as_OT.cmp_lt _ _) (String_as_OT.lt_trans _ _ _ Eab Ebc)) as Hac.
    unfold String_as_OT.cmp in Hac. rewrite Hac. reflexivity.
Qed.

(** X9: [projection_trace_span] is ordered by [trace_id], then
    [timestamp] (within one trace the timestamps ascend), and it locates every
    row exactly once: its offsets are a permutation of the positions of the
    rows, and an entry sits at an offset exactly when the row there has the
    entry's [trace_id] and [timestamp]. *)
Theorem trace_layout_locates_every_row_once (rows : list logs22.row) :
  let layout := projection_trace_span rows in
  StronglySorted (fun a b => trace_span_leb a b = true) layout /\
  (forall a b, trace_span_leb a b = true -> fst (fst a) = fst (fst b) ->
               snd (fst a) <= snd (fst b)) /\
  Permutation (map snd layout) (seq 0 (List.length rows)) /\
  (forall k i, In (k, i) layout <->
               exists r, nth_error rows i = Some r /\ k = logs22.trace_span_key r).
Proof.
  cbv zeta. unfold projection_trace_span. split; [|split; [|split]].
  - apply sort_by_sorted; [exact trace_span_leb_total | exact trace_span_leb_trans].
  - intros a b H E. unfold trace_span_leb in H. rewrite E in H.
    pose proof (proj2 (String_as_OT.cmp_eq (fst (fst b)) (fst (fst b))) eq_refl) as Hbb.
    unfold String_as_OT.cmp in Hbb. rewrite Hbb in H. apply Z.leb_le. exact H.
  - eapply Permutation_trans; [apply Permutation_map, sort_by_Permutation|].
    rewrite <- (length_map logs22.trace_span_key rows) at 1 2.
    rewrite combine_seq_snd. rewrite length_map. apply Permutation_refl.
  - intros k i. rewrite sort_by_In. split.
    + intros H. rewrite <- (length_map logs22.trace_span_key rows) in H.
      apply combine_seq_nth in H. destruct H as [_ H]. rewrite Nat.sub_0_r in H.
      rewrite nth_error_map in H. destruct (nth_error rows i) as [r|]; [|discriminate H].
      exists r. split; [reflexivity|]. inversion H. reflexivity.
    + intros (r & Hr & ->). rewrite <- (length_map logs22.trace_span_key rows).
      apply (@combine_seq_In _ (map logs22.trace_span_key rows) 0%nat).
      rewrite nth_error_map, Hr. reflexivity.
Qed.

(** ** Redelivery and the roll-up *)

Section RedeliveryFacts.

Variable json_other : string -> string.

Lemma rollup_counter_range k rows : CH.wrap_UInt64 (rollup_counter k rows) = rollup_counter k rows.
Proof. apply wrap_UInt64_small. unfold rollup_counter. apply total_range. Qed.

Lemma deliver_counter k nows now w st :
  rollup_counter k (log_attributes_rows (deliver json_other nows w st))
  = CH.wrap_UInt64
      (rollup_counter k (log_attributes_rows st)
       + Z.of_nat (List.length nows)
         * increments json_other k [logs22.materialize now w]).
Proof.
  revert st. induction nows as [|n later IH]; intros st.
  - simpl. rewrite Z.add_0_r. symmetry. apply rollup_counter_range.
  - cbn [deliver List.length]. rewrite IH, insert_counter.
    change (map (logs22.materialize n) [w]) with [logs22.materialize n w].
    change [logs22.materialize n w] with (map (logs22.materialize n) [w]).
    rewrite (increments_now json_other k n now).
    change (map (logs22.materialize now) [w]) with [logs22.materialize now w].
    rewrite wrap_UInt64_add_l. f_equal. lia.
Qed.

End RedeliveryFacts.

(** X10: the roll-up is not deduplicated.  After a record is delivered N
    times and both tables are merged, the counter of every key of
    [log_attributes] has grown by N times what one delivery adds (modulo
    2^64), and one delivery adds at least 1 under the key of each attribute
    pair whose key is shorter than 256 bytes. *)
Theorem rollup_counts_every_delivery json_other nows now w st k :
  let many := merge_log_attributes (merge_logs22 (deliver json_other nows w st)) in
  rollup_counter k (log_attributes_rows many)
  = CH.wrap_UInt64
      (rollup_counter k (log_attributes_rows st)
       + Z.of_nat (List.length nows)
         * increments json_other k [logs22.materialize now w]) /\
  (forall key v,
     In (key, v) (logs22.attributes w) -> CH.length key < 256 ->
     k = rollup_key json_other
           (logs22.team_id w,
            CH.toDateTime (CH.toStartOfInterval_minute 10 (logs22.timestamp w)),
            logs22.service_name w, (key, if CH.length v >? 256 then "" else v)) ->
     1 <= increments json_other k [logs22.materialize now w]).
Proof.
  cbv zeta. split.
  - rewrite merge_log_attributes_counter.
    change (log_attributes_rows (merge_logs22 (deliver json_other nows w st)))
      with (log_attributes_rows (deliver json_other nows w st)).
    apply deliver_counter.
  - intros key v Hkv Hk ->. unfold increments.
    match goal with
    | |- 1 <= Z.of_nat (count_occ ?dec ?l ?x) =>
        assert (H : In x l); [|apply (count_occ_In dec) in H; lia]
    end.
    apply in_map. apply rollup_groups_In.
    exists (logs22.materialize now w), key, v.
    split; [left; reflexivity|]. split; [exact Hkv|]. split; [exact Hk | reflexivity].
Qed.

Example rollup_counts_three_deliveries :
  let st := merge_log_attributes
              (merge_logs22
                 (deliver sample_json_other [5; 6; 7]
                    (sample_log 1 "T1" "api" [("env", quoted "prod")] []) empty)) in
  List.length (logs22_rows st) = 1%nat /\
  map log_attributes.attribute_count (log_attributes_rows st) = [3].
Proof. vm_compute. split; reflexivity. Qed.

(** ** Merges between inserts *)

Lemma Store_eq (a b : Store) :
  logs22_rows a = logs22_rows b ->
  projection_aggregate_counts a = projection_aggregate_counts b ->
  log_attributes_rows a = log_attributes_rows b ->
  a = b.
Proof. destruct a, b. simpl. intros -> -> ->. reflexivity. Qed.

Lemma merge_log_attributes_rows st :
  log_attributes_rows (merge_log_attributes st)
  = map (fun kc => log_attributes.of_key (fst kc) (snd kc))
      (sum_by_key log_attributes.sorting_key_eq_dec
         (map (fun r => (log_attributes.sorting_key r, log_attributes.attribute_count r))
            (log_attributes_rows st))).
Proof. reflexivity. Qed.

Lemma merge_logs22_projection st :
  projection_aggregate_counts (merge_logs22 st)
  = option_map (sum_by_key logs22.aggregate_key_eq_dec) (projection_aggregate_counts st).
Proof. reflexivity. Qed.

(** X11: a merge may run at any time: merging [logs22] (or
    [log_attributes]) before an INSERT and again after it leaves the store
    that a single merge after the INSERT leaves, and the merges of the two
    tables commute. *)
Theorem merges_can_run_at_any_time json_other now block st :
  merge_logs22 (insert_logs22 json_other now block (merge_logs22 st))
  = merge_logs22 (insert_logs22 json_other now block st) /\
  merge_log_attributes (insert_logs22 json_other now block (merge_log_attributes st))
  = merge_log_attributes (insert_logs22 json_other now block st) /\
  merge_logs22 (merge_log_attributes st) = merge_log_attributes (merge_logs22 st).
Proof.
  split; [|split; [|reflexivity]].
  - apply Store_eq.
    + rewrite !merge_logs22_rows, !insert_logs22_rows, merge_logs22_rows.
      rewrite !replacing_merge_app, replacing_merge_idempotent. reflexivity.
    + rewrite !merge_logs22_projection, !insert_logs22_layout, merge_logs22_projection.
      destruct (projection_aggregate_counts st) as [p|]; [|reflexivity].
      cbn [option_map]. rewrite sum_by_key_app_merged. reflexivity.
    + change (log_attributes_rows (insert_logs22 json_other now block (merge_logs22 st))
              = log_attributes_rows (insert_logs22 json_other now block st)).
      rewrite !insert_logs22_attributes. reflexivity.
  - apply Store_eq.
    + change (logs22_rows (insert_logs22 json_other now block (merge_log_attributes st))
              = logs22_rows (insert_logs22 json_other now block st)).
      rewrite !insert_logs22_rows. reflexivity.
    + change (projection_aggregate_counts
                (insert_logs22 json_other now block (merge_log_attributes st))
              = projection_aggregate_counts (insert_logs22 json_other now block st)).
      rewrite !insert_logs22_layout. reflexivity.
    + rewrite (merge_log_attributes_rows (insert_logs22 json_other now block st)).
      rewrite (merge_log_attributes_rows
                 (insert_logs22 json_other now block (merge_log_attributes st))).
      rewrite !insert_logs22_attributes, !map_app, merge_log_attributes_pairs.
      rewrite sum_by_key_app_merged. reflexivity.
Qed.

(** ** The coarse layout before a collapse *)

Lemma replacing_merge_count (R K G : Type) (key : R -> K)
    (K_eq_dec : forall a b : K, {a = b} + {a <> b})
    (G_eq_dec : forall a b : G, {a = b} + {a <> b}) (f : R -> G) (g : G) rows :
  (count_occ G_eq_dec (map f (replacing_merge key K_eq_dec rows)) g
   <= count_occ G_eq_dec (map f rows) g)%nat.
Proof.
  induction rows as [|x rest IH]; simpl; [lia|].
  destruct (existsb (same_key key K_eq_dec x) rest); simpl;
    destruct (G_eq_dec (f x) g); lia.
Qed.

Section RunFacts.

Variable json_other : string -> string.

Lemma rows_of_group_app k l1 l2 :
  rows_of_group k (l1 ++ l2) = rows_of_group k l1 + rows_of_group k l2.
Proof. unfold rows_of_group. rewrite map_app, count_occ_app. lia. Qed.

Lemma insert_keeps_layout_exact k now block st :
  layout_counter k (projection_aggregate_counts st)
  = CH.wrap_UInt64 (rows_of_group k (logs22_rows st)) ->
  projection_aggregate_counts st <> None ->
  layout_counter k (projection_aggregate_counts (insert_logs22 json_other now block st))
  = CH.wrap_UInt64 (rows_of_group k (logs22_rows (insert_logs22 json_other now block st)))
  /\ projection_aggregate_counts (insert_logs22 json_other now block st) <> None.
Proof.
  intros H Hp. rewrite insert_layout_counter, insert_logs22_rows, insert_logs22_layout.
  destruct (projection_aggregate_counts st) as [p|]; [|congruence].
  cbn [layout_counter option_map] in *. split; [|discriminate].
  rewrite H, rows_of_group_app, wrap_UInt64_add_l. reflexivity.
Qed.

Lemma insert_all_layout_exact k blocks : forall st,
  layout_counter k (projection_aggregate_counts st)
  = CH.wrap_UInt64 (rows_of_group k (logs22_rows st)) ->
  projection_aggregate_counts st <> None ->
  layout_counter k (projection_aggregate_counts (insert_all json_other blocks st))
  = CH.wrap_UInt64 (rows_of_group k (logs22_rows (insert_all json_other blocks st))).
Proof.
  induction blocks as [|[now block] later IH]; intros st H Hp; [exact H|].
  cbn [insert_all].
  destruct (insert_keeps_layout_exact k now block st H Hp) as [H' Hp'].
  apply IH; assumption.
Qed.

End RunFacts.

(** X12: in a store built by INSERTs alone, the counter of
    [projection_aggregate_counts] for a key is the number of stored rows of
    that key (modulo 2^64).  The merge-collapse keeps the counter as it is,
    while the number of rows of the key can only go down. *)
Theorem layout_counts_the_rows_until_a_collapse json_other blocks k :
  let st := insert_all json_other blocks empty in
  layout_counter k (projection_aggregate_counts st)
  = CH.wrap_UInt64 (rows_of_group k (logs22_rows st)) /\
  layout_counter k (projection_aggregate_counts (merge_logs22 st))
  = CH.wrap_UInt64 (rows_of_group k (logs22_rows st)) /\
  rows_of_group k (logs22_rows (merge_logs22 st)) <= rows_of_group k (logs22_rows st).
Proof.
  cbv zeta.
  assert (E : layout_counter k
                (projection_aggregate_counts (insert_all json_other blocks empty))
              = CH.wrap_UInt64
                  (rows_of_group k (logs22_rows (insert_all json_other blocks empty)))).
  { apply insert_all_layout_exact; [reflexivity | discriminate]. }
  split; [exact E|]. split.
  - rewrite merge_logs22_layout. exact E.
  - rewrite merge_logs22_rows. unfold rows_of_group. apply Nat2Z.inj_le.
    apply replacing_merge_count.
Qed.

Example layout_overcounts_after_a_collapse :
  let st := insert_all sample_json_other
              [(5, [sample_log 1 "T1" "api" [] []]); (6, [sample_log 1 "T1" "api" [] []])]
              empty in
  let k := logs22.aggregate_key (logs22.materialize 5 (sample_log 1 "T1" "api" [] [])) in
  layout_counter k (projection_aggregate_counts (merge_logs22 st)) = 2 /\
  rows_of_group k (logs22_rows (merge_logs22 st)) = 1.
Proof. vm_compute. split; reflexivity. Qed.

(** ** From a Kafka message to both tables *)

Lemma block_to_logs22_In nad ms : forall block m,
  kafka_logs_avro_mv.block_to_logs22 nad ms = Some block -> In m ms ->
  exists w, In w block
            /\ kafka_logs_avro_mv.to_logs22 nad (kafka_logs_avro_mv.select m) = Some w.
Proof.
  induction ms as [|m0 rest IH]; intros block m Hb Hm; [destruct Hm|].
  cbn [kafka_logs_avro_mv.block_to_logs22] in Hb.
  destruct (kafka_logs_avro_mv.to_logs22 nad (kafka_logs_avro_mv.select m0)) as [w0|] eqn:E0;
    [|discriminate Hb].
  destruct (kafka_logs_avro_mv.block_to_logs22 nad rest) as [ws|]; [|discriminate Hb].
  inversion Hb; subst block. destruct Hm as [<-|Hm].
  - exists w0. split; [left; reflexivity | exact E0].
  - destruct (IH ws m eq_refl Hm) as (w & Hw & E). exists w. split; [right; exact Hw | exact E].
Qed.

Lemma to_logs22_columns nad (r : kafka_logs_avro_mv.row) w :
  kafka_logs_avro_mv.to_logs22 nad r = Some w ->
  logs22.team_id w = kafka_logs_avro_mv.team_id r /\
  logs22.uuid w = kafka_logs_avro.uuid r /\
  kafka_logs_avro_mv.not_null nad "" (kafka_logs_avro.attributes r)
  = Some (logs22.attributes w).
Proof.
  unfold kafka_logs_avro_mv.to_logs22.
  destruct (kafka_logs_avro_mv.not_null nad "" (kafka_logs_avro.attributes r)) as [a|];
    [|discriminate].
  destruct (kafka_logs_avro_mv.not_null nad "" (kafka_logs_avro.attributes_map_str r))
    as [s|]; [|discriminate].
  destruct (kafka_logs_avro_mv.not_null nad 0%float (kafka_logs_avro.attributes_map_float r))
    as [f|]; [|discriminate].
  destruct (kafka_logs_avro_mv.not_null nad 0 (kafka_logs_avro.attributes_map_datetime r))
    as [d|]; [|discriminate].
  intros E. inversion E. cbn. repeat split.
Qed.

Lemma not_null_In (V : Type) nad (d : V) m m' k v :
  kafka_logs_avro_mv.not_null nad d m = Some m' -> In (k, Some v) m -> In (k, v) m'.
Proof.
  intros E H. rewrite (@not_null_Some _ nad d m m' E).
  apply in_map_iff. exists (k, Some v). split; [reflexivity | exact H].
Qed.

(** X13: a Kafka message of a block that converts, whose first [team_id]
    header is the decimal text of a 32-bit tenant id and whose [attributes]
    hold a non-NULL pair with a key shorter than 256 bytes, reaches both
    tables: [logs22] gets a row of that tenant with the payload's uuid, the
    pair and the wall-clock time of the INSERT, and [log_attributes] gets a
    row of that tenant with the key and the JSON-decoded guarded value. *)
Theorem kafka_message_reaches_both_tables json_other nad now ms block st m n k v :
  kafka_logs_avro_mv.block_to_logs22 nad ms = Some block ->
  In m ms ->
  first_header "team_id" (kafka_logs_avro._headers m) = Some (decimal n) ->
  CH.Int32_min <= n <= CH.Int32_max ->
  In (k, Some v) (kafka_logs_avro.attributes (kafka_logs_avro.value m)) ->
  CH.length k < 256 ->
  (exists r : logs22.row,
     In r (logs22_rows (kafka_consume json_other nad now ms st)) /\
     logs22.team_id r = n /\
     logs22.uuid r = kafka_logs_avro.uuid (kafka_logs_avro.value m) /\
     In (k, v) (logs22.attributes r) /\
     logs22.created_at r = now) /\
  (exists row,
     In row (log_attributes_rows (kafka_consume json_other nad now ms st)) /\
     log_attributes.team_id row = n /\
     log_attributes.attribute_key row = k /\
     log_attributes.attribute_value row
     = CH.CAST_JSONExtract_Dynamic_String json_other
         (if CH.length v >? 256 then "" else v)).
Proof.
  intros Hb Hm Hh Hn Hkv Hk.
  destruct (@block_to_logs22_In nad ms block m Hb Hm) as (w & Hw & E).
  destruct (@to_logs22_columns nad _ w E) as (Ht & Hu & Ha).
  pose proof (@not_null_In _ nad _ _ _ k v Ha Hkv) as Hin.
  rewrite (@select_team_decimal m n Hh Hn) in Ht.
  unfold kafka_consume. rewrite Hb. split.
  - exists (logs22.materialize now w). rewrite insert_logs22_rows.
    split; [apply in_or_app; right; apply in_map; exact Hw|].
    split; [exact Ht|]. split; [exact Hu|]. split; [exact Hin | reflexivity].
  - destruct (@inserted_pair_has_a_row json_other now block st w k v Hw Hin Hk)
      as (row & Hrow & Hteam & Hkey & Hval).
    exists row. split; [exact Hrow|]. split; [congruence|]. split; assumption.
Qed.

Lemma kafka_message_reaches_both_tables_witness :
  exists row,
    In row (log_attributes_rows
              (kafka_consume sample_json_other false 5
                 [sample_event [("team_id", "2")] [("env", Some (quoted "prod"))]] empty)) /\
    log_attributes.team_id row = 2 /\
    log_attributes.attribute_key row = "env" /\
    log_attributes.attribute_value row = "prod".
Proof.
  destruct (@kafka_message_reaches_both_tables sample_json_other false 5
              [sample_event [("team_id", "2")] [("env", Some (quoted "prod"))]]
              [sample_log 2 "T1" "api" [("env", quoted "prod")] []] empty
              (sample_event [("team_id", "2")] [("env", Some (quoted "prod"))])
              2 "env" (quoted "prod"))
    as (_ & row & H).
  - reflexivity.
  - left. reflexivity.
  - reflexivity.
  - unfold CH.Int32_min, CH.Int32_max. lia.
  - left. reflexivity.
  - vm_compute. reflexivity.
  - exists row. exact H.
Defined.

(** ** Rows that satisfy the assumed equality *)

Lemma mapElement_absent m k : ~ In k (map fst m) -> CH.mapElement m k = "".
Proof.
  induction m as [|[k' v] rest IH]; simpl; intros H; [reflexivity|].
  destruct (String.eqb_spec k' k) as [E|E]; [exfalso; apply H; left; exact E|].
  apply IH. intros Hin. apply H. right. exact Hin.
Qed.

Lemma mapElement_first before k v after :
  ~ In k (map fst before) -> CH.mapElement (before ++ (k, v) :: after) k = v.
Proof.
  induction before as [|[k' v'] rest IH]; simpl; intros H.
  - rewrite String.eqb_refl. reflexivity.
  - destruct (String.eqb_spec k' k) as [E|E]; [exfalso; apply H; left; exact E|].
    apply IH. intros Hin. apply H. right. exact Hin.
Qed.

(** X14: which rows satisfy the assumed equality
    [attributes_map_str['service.name__str'] = service_name]: a row without
    such an entry exactly when its [service_name] is empty, a row with one
    exactly when the first such entry equals [service_name]. *)
Theorem assumed_equality_reads_the_first_entry (w : logs22.columns) :
  (~ In "service.name__str" (map fst (logs22.attributes_map_str w)) ->
   (logs22.assume_service_name_attr w = true <-> logs22.service_name w = "")) /\
  (forall before v after,
     logs22.attributes_map_str w = before ++ ("service.name__str", v) :: after ->
     ~ In "service.name__str" (map fst before) ->
     (logs22.assume_service_name_attr w = true <-> v = logs22.service_name w)).
Proof.
  unfold logs22.assume_service_name_attr. split.
  - intros H. rewrite (@mapElement_absent _ _ H), String.eqb_eq.
    split; intros E; symmetry; exact E.
  - intros before v after E H. rewrite E, (@mapElement_first before _ v after H), String.eqb_eq.
    reflexivity.
Qed.
